(** * bind/package.go: the analysis pass of gopy's [bind] package

    A shallow embedding of [src/bind/package.go] and the properties of its
    package model.  The embedding follows the Go source function by
    function; the consumed libraries ([go/types], [go/doc]) are modelled by
    the data the analysis reads from them. *)

From Stdlib Require Import ZArith Ascii.
From stdpp Require Import base option list strings gmap fin_maps.

(** ** Outcomes of fallible code

    A Go function of this file either returns normally, returns a non-nil
    [error] built by [fmt.Errorf], or panics. *)

Inductive outcome (E A : Type) : Type :=
| Ok (a : A)
| Err (e : E)
| Panic (msg : string).
Arguments Ok {E A} a.
Arguments Err {E A} e.
Arguments Panic {E A} msg.

Definition outcome_bind {E A B} (f : A → outcome E B) (m : outcome E A) : outcome E B :=
  match m with
  | Ok a => f a
  | Err e => Err e
  | Panic msg => Panic msg
  end.

#[global] Instance outcome_mbind {E} : MBind (outcome E) := @outcome_bind E.
#[global] Instance outcome_mret {E} : MRet (outcome E) := @Ok E.

(** A [for] loop whose body may return early with an error or panic. *)
Fixpoint foldM {E S A} (body : S → A → outcome E S) (st : S) (l : list A) : outcome E S :=
  match l with
  | [] => Ok st
  | x :: rest => st' ← body st x; foldM body st' rest
  end.

(** ** go/types: the consumed, type-checked package *)

Module types.

(** A [types.Type] is an interface value holding a pointer; the analysis
    only compares such values with [==], which compares the pointers.  A
    type is therefore modelled by its identity. *)
Definition Typ := N.

(** [*types.Var]: a package-level variable, a parameter, a result or a
    receiver. *)
Record Var := { var_Pkg : string; var_Name : string; var_Type : Typ }.

(** [*types.Signature]; a nil [*types.Tuple] is the empty list. *)
Record Signature :=
  { sig_Recv : option Var; sig_Params : list Var; sig_Results : list Var }.

Record Const := { const_Pkg : string; const_Name : string; const_Type : Typ }.

(** [*types.Func]; [func_Pkg] is the name of [Pkg()], and [None] when
    [Pkg()] is nil, as it is for the functions of the universe: the method
    [Error] of the predeclared interface [error] reaches a method set
    through a struct that embeds [error].  [func_Parent] tells whether
    [Parent()] is non-nil: it is nil for methods, and the package scope for
    package-level functions.  [func_Type] is the identity of the signature,
    [func_Sig] its content. *)
Record Func :=
  { func_Pkg : option string; func_Name : string; func_Parent : bool;
    func_Type : Typ; func_Sig : Signature }.

(** What the type assertion of [obj.Type()] to a named type and the type
    switch on [named.Underlying()] find. *)
Inductive Kind := NamedStruct | NamedOther | NotNamed.

Record TypeName :=
  { tn_Pkg : string; tn_Name : string; tn_Type : Typ; tn_Kind : Kind }.

(** The [types.Object] interface; [OOther] stands for the remaining
    implementations ([*types.PkgName], [*types.Label], [*types.Builtin],
    [*types.Nil]), of which the last two have a nil [Pkg()]. *)
Inductive Object :=
| OConst (c : Const)
| OVar (v : Var)
| OFunc (f : Func)
| OTypeName (t : TypeName)
| OOther (pkg : option string) (name : string).

Definition Name (o : Object) : string :=
  match o with
  | OConst c => const_Name c
  | OVar v => var_Name v
  | OFunc f => func_Name f
  | OTypeName t => tn_Name t
  | OOther _ n => n
  end.

(** The name of [obj.Pkg()], and [None] when [obj.Pkg()] is nil.  The
    constants, variables and type names this file handles come from a
    package scope, whose objects have a package; a function comes from a
    package scope or from a method set, where it can be of the universe. *)
Definition PkgName (o : Object) : option string :=
  match o with
  | OConst c => Some (const_Pkg c)
  | OVar v => Some (var_Pkg v)
  | OFunc f => func_Pkg f
  | OTypeName t => Some (tn_Pkg t)
  | OOther p _ => p
  end.

(** [*types.Scope]: the objects of the scope, in the order of
    [scope.Names()]. *)
Definition Scope := list Object.

Definition Names (s : Scope) : list string := Name <$> s.

(** [scope.Lookup(name)]; [None] is the nil object. *)
Fixpoint Lookup (s : Scope) (name : string) : option Object :=
  match s with
  | [] => None
  | o :: rest => if decide (Name o = name) then Some o else Lookup rest name
  end.

Record Package := { pkg_Name : string; pkg_Scope : Scope }.

(** An entry of a [*types.MethodSet]: [Obj()] is a [*types.Func], [Type()]
    the signature of the selected method. *)
Record Selection := { sel_Obj : Func; sel_Type : Signature }.

End types.

(** ** go/doc: the consumed documentation tree *)

Module doc.

Record Value := { value_Doc : string; value_Names : list string }.

Record Func := { func_Doc : string; func_Name : string }.

Record Type_ :=
  { type_Doc : string; type_Name : string;
    type_Funcs : list Func; type_Methods : list Func }.

Record Package :=
  { Consts : list Value; Types : list Type_; Vars : list Value; Funcs : list Func }.

End doc.

Import types(Typ, Object, OConst, OVar, OFunc, OTypeName, OOther).

(** ** The model types of package [bind] *)

(** Modelled from the spec: [bind.Var] (declared outside [package.go]) is the
    Variable Model, a semantic type with a declared name and doc text, and an
    identity like every model. *)
Record Var :=
  { v_id : string; v_doc : string; v_name : string; v_typ : Typ }.

Record Signature :=
  { sig_ret : list Var; sig_args : list Var; sig_recv : option Var }.

(** The back pointer [pkg *Package] of the Go structs is not modelled. *)
Record Func :=
  { f_sig : Signature;
    f_typ : option Typ;
    f_name : string;
    f_id : string;
    f_doc : string;
    f_ret : option Typ;   (* return type, if any *)
    f_err : bool;         (* true if original go func has comma-error *)
    f_ctor : bool }.      (* true if this is a newXXX function *)

Record Const :=
  { c_obj : types.Const; c_id : string; c_doc : string; c_f : Func }.

(** [type Protocol int]. *)
Definition Protocol := Z.

(** [ProtoStringer Protocol = 1 << iota], the first constant of its block. *)
Definition ProtoStringer : Protocol := Z.shiftl 1 0.

Record Struct :=
  { s_obj : types.TypeName;
    s_id : string;
    s_doc : string;
    s_ctors : list Func;
    s_meths : list Func;
    s_prots : Protocol }.

(** The values of the [bind.Object] interface stored in [Package.objs]. *)
Inductive BObject :=
| BStruct (s : Struct)
| BFunc (f : Func).

(** Modelled from the spec: the Symbol Table (declared outside [package.go])
    is a registry of the exported declarations keyed by name, where a second
    registration of a name overwrites the first. *)
Record symtab := { syms : gmap string Object }.

Definition newSymtab : symtab := {| syms := ∅ |}.

Definition addSymbol (sym : symtab) (obj : Object) : symtab :=
  {| syms := <[types.Name obj := obj]> (syms sym) |}.

Record Package :=
  { p_pkg : types.Package;
    p_doc : doc.Package;
    p_syms : symtab;
    p_objs : gmap string BObject;
    p_consts : list Const;
    p_vars : list Var;
    p_structs : list Struct;
    p_funcs : list Func }.

(** A non-nil [error] of this file: the [fmt.Errorf] format and its one
    argument, the declaration. *)
Inductive error := Errorf (format : string) (arg : Object).

Definition result := outcome error.

(** ** Collaborators

    Functions this file calls and does not define: of the Go libraries
    ([ast.IsExported] behind [obj.Exported()], [types.NewMethodSet] of
    [types.NewPointer]) and of package [bind] outside [package.go]. *)
Class Collaborators :=
  { IsExported : string → bool;
    NewMethodSetOfPointer : Typ → list types.Selection;
    isErrorType : Typ → bool;
    isStringer : Object → bool;
    pyTypeName : Typ → string;
    newVar : types.Package → doc.Package → Typ → string → string → string → Var;
    newVarFrom : types.Package → doc.Package → types.Var → Var;
    newVarsFrom : types.Package → doc.Package → list types.Var → list Var }.

(** Go's map iteration order is unspecified: every execution of a [range]
    over a map picks an order of the keys.  The three [range] statements over
    the working maps of [process] take theirs from here; the one over
    [funcs] runs once per struct and is indexed by the struct's name. *)
Record MapOrder :=
  { orderStructs : list string → list string;
    orderFuncs : string → list string → list string;
    orderRest : list string → list string }.

(** An order is admissible when it lists exactly the keys of the map. *)
Definition admissible (ord : MapOrder) : Prop :=
  (∀ l, orderStructs ord l ≡ₚ l) ∧
  (∀ sname l, orderFuncs ord sname l ≡ₚ l) ∧
  (∀ l, orderRest ord l ≡ₚ l).

Definition keys {A} (m : gmap string A) : list string := (map_to_list m).*1.

Definition newline : string := String "010"%char "".

Section Bind.

Context `{Collaborators}.

(** [obj.Exported()]. *)
Definition Exported (o : Object) : bool := IsExported (types.Name o).

Definition Func_Return (f : Func) : option Typ := f_ret f.
Definition Func_GoName (f : Func) : string := f_name f.
Definition Func_ID (f : Func) : string := f_id f.
Definition Func_Doc (f : Func) : string := f_doc f.

Definition Struct_GoType (s : Struct) : Typ := types.tn_Type (s_obj s).
Definition Struct_GoName (s : Struct) : string := types.tn_Name (s_obj s).
Definition Struct_ID (s : Struct) : string := s_id s.
Definition Struct_Doc (s : Struct) : string := s_doc s.

Definition Const_ID (c : Const) : string := c_id c.
Definition Const_GoName (c : Const) : string := types.const_Name (c_obj c).

(** *** getDoc *)

(** [for _, cn := range c.Names { if n == cn { return c.Doc } }]:
    [Some] is the early return. *)
Fixpoint scanNames (n : string) (d : string) (names : list string) : option string :=
  match names with
  | [] => None
  | cn :: rest => if decide (n = cn) then Some d else scanNames n d rest
  end.

(** The loops over [p.doc.Consts] and [p.doc.Vars]. *)
Fixpoint scanValues (n : string) (vs : list doc.Value) : option string :=
  match vs with
  | [] => None
  | c :: rest =>
      match scanNames n (doc.value_Doc c) (doc.value_Names c) with
      | Some d => Some d
      | None => scanValues n rest
      end
  end.

(** The loops over [typ.Methods], [typ.Funcs] and [p.doc.Funcs]. *)
Fixpoint scanFuncs (n : string) (fs : list doc.Func) : option string :=
  match fs with
  | [] => None
  | m :: rest => if decide (doc.func_Name m = n) then Some (doc.func_Doc m) else scanFuncs n rest
  end.

(** The loop over [p.doc.Types] of the [*types.Func] case; [meth] is
    [o.Parent() == nil]. *)
Fixpoint scanTypes (parent n : string) (meth : bool) (ts : list doc.Type_) : option string :=
  match ts with
  | [] => None
  | typ :: rest =>
      if decide (doc.type_Name typ ≠ parent) then scanTypes parent n meth rest
      else
        match scanFuncs n (if meth then doc.type_Methods typ else doc.type_Funcs typ) with
        | Some d => Some d
        | None => scanTypes parent n meth rest
        end
  end.

(** The loop over [p.doc.Types] of the [*types.TypeName] case. *)
Fixpoint scanTypeDocs (n : string) (ts : list doc.Type_) : option string :=
  match ts with
  | [] => None
  | t :: rest => if decide (n = doc.type_Name t) then Some (doc.type_Doc t) else scanTypeDocs n rest
  end.

(** The closure [doc := func() string { ... }()] of the [*types.Func] case. *)
Definition funcDoc (p : Package) (parent : string) (o : types.Func) : string :=
  let n := types.func_Name o in
  if negb (types.func_Parent o) || (types.func_Parent o && negb (bool_decide (parent = ""))) then
    default "" (scanTypes parent n (negb (types.func_Parent o)) (doc.Types (p_doc p)))
  else
    default "" (scanFuncs n (doc.Funcs (p_doc p))).

(** The closure [parseFn]. *)
Definition parseFn (tup : list types.Var) : list string :=
  (λ paramVar,
     let paramType := pyTypeName (types.var_Type paramVar) in
     if decide (types.var_Name paramVar ≠ "")
     then paramType +:+ " " +:+ types.var_Name paramVar
     else paramType) <$> tup.

(** [docSig := fmt.Sprintf("%s(%s) %s", o.Name(), paramString, resultString)];
    [String.concat] is [strings.Join]. *)
Definition docSig (o : types.Func) : string :=
  let sig := types.func_Sig o in
  let params := parseFn (types.sig_Params sig) in
  let results := parseFn (types.sig_Results sig) in
  let paramString := String.concat ", " params in
  let resultString := String.concat ", " results in
  types.func_Name o +:+ "(" +:+ paramString +:+ ") " +:+ resultString.

Definition getDoc (p : Package) (parent : string) (o : Object) : result string :=
  let n := types.Name o in
  match o with
  | OConst _ => Ok (default "" (scanValues n (doc.Consts (p_doc p))))
  | OVar _ => Ok (default "" (scanValues n (doc.Vars (p_doc p))))
  | OFunc fo =>
      let d := funcDoc p parent fo in
      if decide (d ≠ "")
      then Ok (docSig fo +:+ newline +:+ newline +:+ d)
      else Ok (docSig fo)
  | OTypeName _ => Ok (default "" (scanTypeDocs n (doc.Types (p_doc p))))
  | OOther _ _ => Panic "not yet supported: %v (%T)"
  end.

(** *** Signature, Func, Const, Struct *)

Definition newSignatureFrom (pkg : Package) (sig : types.Signature) : Signature :=
  let recv :=
    match types.sig_Recv sig with
    | Some r => Some (newVarFrom (p_pkg pkg) (p_doc pkg) r)
    | None => None
    end in
  {| sig_ret := newVarsFrom (p_pkg pkg) (p_doc pkg) (types.sig_Results sig);
     sig_args := newVarsFrom (p_pkg pkg) (p_doc pkg) (types.sig_Params sig);
     sig_recv := recv |}.

Definition newSignature (pkg : Package) (recv : option Var) (params results : list Var) : Signature :=
  {| sig_ret := results; sig_args := params; sig_recv := recv |}.

(** [obj.Type()]. *)
Definition ObjType (o : Object) : option Typ :=
  match o with
  | OConst c => Some (types.const_Type c)
  | OVar v => Some (types.var_Type v)
  | OFunc f => Some (types.func_Type f)
  | OTypeName t => Some (types.tn_Type t)
  | OOther _ _ => None
  end.

(** [obj.Pkg().Name()]: [Name] reads a field of its receiver, so that a nil
    [obj.Pkg()] is a nil pointer dereference. *)
Definition pkgNameOf (obj : Object) : result string :=
  match types.PkgName obj with
  | Some n => Ok n
  | None => Panic "nil pointer dereference"
  end.

(** The computation of [id] in [newFuncFrom]. *)
Definition funcID (parent : string) (obj : Object) : result string :=
  n ← pkgNameOf obj;
  if decide (parent ≠ "")
  then Ok (n +:+ "_" +:+ parent +:+ "_" +:+ types.Name obj)
  else Ok (n +:+ "_" +:+ types.Name obj).

Definition newFuncFrom (p : Package) (parent : string) (obj : Object) (sig : types.Signature)
  : result Func :=
  let res := types.sig_Results sig in
  '(ret, haserr) ←
    match res with
    | [r0; r1] =>
        if negb (isErrorType (types.var_Type r1))
        then Err (Errorf "bind: second result value must be of type error: %s" obj)
        else Ok (Some (types.var_Type r0), true)
    | [r0] =>
        if isErrorType (types.var_Type r0)
        then Ok (None, true)
        else Ok (Some (types.var_Type r0), false)
    | [] => Ok (None, false)
    | _ => Err (Errorf "bind: too many results to return: %v" obj)
    end;
  id ← funcID parent obj;
  d ← getDoc p parent obj;
  Ok {| f_sig := newSignatureFrom p sig;
        f_typ := ObjType obj;
        f_name := types.Name obj;
        f_id := id;
        f_doc := d;
        f_ret := ret;
        f_err := haserr;
        f_ctor := false |}.

Definition newStruct (p : Package) (obj : types.TypeName) : result Struct :=
  d ← getDoc p "" (OTypeName obj);
  Ok {| s_obj := obj;
        s_id := types.tn_Pkg obj +:+ "_" +:+ types.tn_Name obj;
        s_doc := d;
        s_ctors := [];
        s_meths := [];
        s_prots := 0%Z |}.

Definition newConst (p : Package) (o : types.Const) : result Const :=
  let id := types.const_Pkg o +:+ "_" +:+ types.const_Name o in
  d ← getDoc p "" (OConst o);
  let res := [newVar (p_pkg p) (p_doc p) (types.const_Type o) "ret" (types.const_Name o) d] in
  let sig := newSignature p None [] res in
  let fct :=
    {| f_sig := sig;
       f_typ := None;
       f_name := types.const_Name o;
       f_id := "get_" +:+ id;
       f_doc := d;
       f_ret := Some (types.const_Type o);
       f_err := false;
       f_ctor := false |} in
  Ok {| c_obj := o; c_id := id; c_doc := d; c_f := fct |}.

(** *** Package *)

Definition addConst (p : Package) (obj : types.Const) : result Package :=
  c ← newConst p obj;
  Ok {| p_pkg := p_pkg p; p_doc := p_doc p; p_syms := p_syms p; p_objs := p_objs p;
        p_consts := p_consts p ++ [c];
        p_vars := p_vars p; p_structs := p_structs p; p_funcs := p_funcs p |}.

Definition addVar (p : Package) (obj : types.Var) : Package :=
  {| p_pkg := p_pkg p; p_doc := p_doc p; p_syms := p_syms p; p_objs := p_objs p;
     p_consts := p_consts p;
     p_vars := p_vars p ++ [newVarFrom (p_pkg p) (p_doc p) obj];
     p_structs := p_structs p; p_funcs := p_funcs p |}.

Definition addStruct (p : Package) (s : Struct) : Package :=
  {| p_pkg := p_pkg p; p_doc := p_doc p; p_syms := p_syms p;
     p_objs := <[Struct_GoName s := BStruct s]> (p_objs p);
     p_consts := p_consts p; p_vars := p_vars p;
     p_structs := p_structs p ++ [s];
     p_funcs := p_funcs p |}.

Definition addFunc (p : Package) (f : Func) : Package :=
  {| p_pkg := p_pkg p; p_doc := p_doc p; p_syms := p_syms p;
     p_objs := <[Func_GoName f := BFunc f]> (p_objs p);
     p_consts := p_consts p; p_vars := p_vars p; p_structs := p_structs p;
     p_funcs := p_funcs p ++ [f] |}.

(** [p.syms.addSymbol(obj)]. *)
Definition registerSymbol (p : Package) (obj : Object) : Package :=
  {| p_pkg := p_pkg p; p_doc := p_doc p; p_syms := addSymbol (p_syms p) obj;
     p_objs := p_objs p; p_consts := p_consts p; p_vars := p_vars p;
     p_structs := p_structs p; p_funcs := p_funcs p |}.

(** [Lookup] goes by the name of the [types.Object] alone. *)
Definition Package_Lookup (p : Package) (o : Object) : option BObject :=
  p_objs p !! types.Name o.

(** *** process *)

(** The package under construction and the two working maps, the local
    variables [funcs] and [structs] of [process]. *)
Record work :=
  { w_p : Package; w_funcs : gmap string Func; w_structs : gmap string Struct }.

(** The body of the loop over [scope.Names()]. *)
Definition declare (scope : types.Scope) (w : work) (name : string) : result work :=
  match types.Lookup scope name with
  | None => Panic "nil pointer dereference"
  | Some obj =>
      if negb (Exported obj) then Ok w
      else
        let p := registerSymbol (w_p w) obj in
        match obj with
        | OConst c =>
            p' ← addConst p c;
            Ok {| w_p := p'; w_funcs := w_funcs w; w_structs := w_structs w |}
        | OVar v =>
            Ok {| w_p := addVar p v; w_funcs := w_funcs w; w_structs := w_structs w |}
        | OFunc fo =>
            f ← newFuncFrom p "" obj (types.func_Sig fo);
            Ok {| w_p := p; w_funcs := <[name := f]> (w_funcs w); w_structs := w_structs w |}
        | OTypeName t =>
            match types.tn_Kind t with
            | types.NamedStruct =>
                s ← newStruct p t;
                Ok {| w_p := p; w_funcs := w_funcs w; w_structs := <[name := s]> (w_structs w) |}
            | types.NamedOther => Panic "not yet supported: %v (%T)"
            | types.NotNamed => Panic "interface conversion"
            end
        | OOther _ _ => Panic "not yet supported: %v (%T)"
        end
  end.

(** The body of the loop over [funcs] inside the loop over [structs]; its
    state is the loop variable [s] and the two working maps.  A key deleted
    before the iteration reaches it is not produced. *)
Definition claim (p : Package) (scope : types.Scope) (sname : string)
    (st : Struct * gmap string Func * gmap string Struct) (name : string)
  : result (Struct * gmap string Func * gmap string Struct) :=
  let '(s, funcs, structs) := st in
  match funcs !! name with
  | None => Ok st
  | Some fct =>
      match Func_Return fct with
      | None => Ok st
      | Some r =>
          if decide (r = Struct_GoType s) then
            let funcs := delete name funcs in
            match types.Lookup scope name with
            | None => Panic "nil pointer dereference"
            | Some o =>
                d ← getDoc p sname o;
                let fct :=
                  {| f_sig := f_sig fct; f_typ := f_typ fct; f_name := f_name fct;
                     f_id := f_id fct; f_doc := d; f_ret := f_ret fct;
                     f_err := f_err fct; f_ctor := true |} in
                let s :=
                  {| s_obj := s_obj s; s_id := s_id s; s_doc := s_doc s;
                     s_ctors := s_ctors s ++ [fct];
                     s_meths := s_meths s; s_prots := s_prots s |} in
                Ok (s, funcs, <[sname := s]> structs)
            end
          else Ok st
      end
  end.

(** The body of the loop over the method set. *)
Definition attach (p : Package) (sname : string) (s : Struct) (meth : types.Selection)
  : result Struct :=
  if negb (Exported (OFunc (types.sel_Obj meth))) then Ok s
  else
    m ← newFuncFrom p sname (OFunc (types.sel_Obj meth)) (types.sel_Type meth);
    let s :=
      {| s_obj := s_obj s; s_id := s_id s; s_doc := s_doc s; s_ctors := s_ctors s;
         s_meths := s_meths s ++ [m]; s_prots := s_prots s |} in
    if isStringer (OFunc (types.sel_Obj meth)) then
      Ok {| s_obj := s_obj s; s_id := s_id s; s_doc := s_doc s; s_ctors := s_ctors s;
            s_meths := s_meths s; s_prots := Z.lor (s_prots s) ProtoStringer |}
    else Ok s.

(** The body of the loop over [structs]. *)
Definition reclassify (ord : MapOrder) (scope : types.Scope) (w : work) (sname : string)
  : result work :=
  match w_structs w !! sname with
  | None => Ok w
  | Some s =>
      '(s, funcs, structs) ←
        foldM (claim (w_p w) scope sname) (s, w_funcs w, w_structs w)
              (orderFuncs ord sname (keys (w_funcs w)));
      s ← foldM (attach (w_p w) sname) s (NewMethodSetOfPointer (Struct_GoType s));
      Ok {| w_p := addStruct (w_p w) s; w_funcs := funcs; w_structs := structs |}
  end.

(** The body of the last loop over [funcs]. *)
Definition keep (funcs : gmap string Func) (p : Package) (name : string) : Package :=
  match funcs !! name with
  | None => p
  | Some fct => addFunc p fct
  end.

(** [process]; the diagnostic [fmt.Printf] of the symbols, which changes
    nothing in the package, is left out. *)
Definition process (ord : MapOrder) (p : Package) : result Package :=
  let scope := types.pkg_Scope (p_pkg p) in
  w ← foldM (declare scope)
            {| w_p := p; w_funcs := ∅; w_structs := ∅ |}
            (types.Names scope);
  w ← foldM (reclassify ord scope) w (orderStructs ord (keys (w_structs w)));
  Ok (foldl (keep (w_funcs w)) (w_p w) (orderRest ord (keys (w_funcs w)))).

(** The package [NewPackage] starts from. *)
Definition emptyPackage (pkg : types.Package) (d : doc.Package) : Package :=
  {| p_pkg := pkg; p_doc := d; p_syms := newSymtab; p_objs := ∅;
     p_consts := []; p_vars := []; p_structs := []; p_funcs := [] |}.

Definition NewPackage (ord : MapOrder) (pkg : types.Package) (d : doc.Package)
  : result Package :=
  process ord (emptyPackage pkg d).

(** *** What the first loop builds for a name

    The loop over [scope.Names()] looks every name up in the scope, so what
    it registers for a name is decided by the name. *)

Definition scopeOf (p : Package) : types.Scope := types.pkg_Scope (p_pkg p).

Definition symModel (p : Package) (k : string) : option Object :=
  if IsExported k then types.Lookup (scopeOf p) k else None.

Definition constModel (p : Package) (k : string) : option Const :=
  match types.Lookup (scopeOf p) k with
  | Some (OConst c) =>
      if IsExported k then
        match newConst p c with Ok m => Some m | _ => None end
      else None
  | _ => None
  end.

Definition varModel (p : Package) (k : string) : option Var :=
  match types.Lookup (scopeOf p) k with
  | Some (OVar v) =>
      if IsExported k then Some (newVarFrom (p_pkg p) (p_doc p) v) else None
  | _ => None
  end.

Definition funcModel (p : Package) (k : string) : option Func :=
  match types.Lookup (scopeOf p) k with
  | Some (OFunc fo) =>
      if IsExported k then
        match newFuncFrom p "" (OFunc fo) (types.func_Sig fo) with
        | Ok f => Some f
        | _ => None
        end
      else None
  | _ => None
  end.

Definition structModel (p : Package) (k : string) : option Struct :=
  match types.Lookup (scopeOf p) k with
  | Some (OTypeName t) =>
      if IsExported k then
        match types.tn_Kind t with
        | types.NamedStruct =>
            match newStruct p t with Ok s => Some s | _ => None end
        | _ => None
        end
      else None
  | _ => None
  end.

(** *** What the second loop does to a function and to a struct *)

(** A function after [fct.doc = ...; fct.ctor = true]. *)
Definition asCtor (fct : Func) (d : string) : Func :=
  {| f_sig := f_sig fct; f_typ := f_typ fct; f_name := f_name fct;
     f_id := f_id fct; f_doc := d; f_ret := f_ret fct;
     f_err := f_err fct; f_ctor := true |}.

(** A struct after [s.ctors = append(s.ctors, ...)]. *)
Definition withCtors (s : Struct) (cs : list Func) : Struct :=
  {| s_obj := s_obj s; s_id := s_id s; s_doc := s_doc s;
     s_ctors := s_ctors s ++ cs;
     s_meths := s_meths s; s_prots := s_prots s |}.

(** A struct after the loop over its method set appended [ms] and, when
    [stringer] holds, set the bit of [ProtoStringer]. *)
Definition withMethods (s : Struct) (ms : list Func) (stringer : bool) : Struct :=
  {| s_obj := s_obj s; s_id := s_id s; s_doc := s_doc s; s_ctors := s_ctors s;
     s_meths := s_meths s ++ ms;
     s_prots := if stringer then Z.lor (s_prots s) ProtoStringer else s_prots s |}.

(** The exported entries of a method set. *)
Definition exportedMethods (mset : list types.Selection) : list types.Selection :=
  filter (λ meth, Exported (OFunc (types.sel_Obj meth)) = true) mset.

(** The models of the exported methods, or the first error among them. *)
Fixpoint methods (p : Package) (sname : string) (mset : list types.Selection)
  : result (list Func) :=
  match mset with
  | [] => Ok []
  | meth :: rest =>
      if negb (Exported (OFunc (types.sel_Obj meth))) then methods p sname rest
      else
        m ← newFuncFrom p sname (OFunc (types.sel_Obj meth)) (types.sel_Type meth);
        ms ← methods p sname rest;
        Ok (m :: ms)
  end.

(** Whether some exported entry of a method set is a stringer. *)
Definition hasStringer (mset : list types.Selection) : bool :=
  existsb (λ meth, isStringer (OFunc (types.sel_Obj meth))) (exportedMethods mset).

(** Whether the loop over [funcs] moves the entry of [name] to a struct of
    type [ty]. *)
Definition claimed (ty : Typ) (funcs : gmap string Func) (name : string) : bool :=
  match funcs !! name with
  | Some fct => bool_decide (Func_Return fct = Some ty)
  | None => false
  end.

(** The names of all constructors of a list of structs. *)
Definition ctorNames (ss : list Struct) : list string :=
  ss ≫= λ s, Func_GoName <$> s_ctors s.

(** *** Invariants of the loops of [process] *)

(** Two packages with the same [pkg] and [doc] are the same to the
    builders, which read nothing else of the package. *)
Definition same_env (p p' : Package) : Prop :=
  p_pkg p = p_pkg p' ∧ p_doc p = p_doc p'.

(** What holds of the package and the working maps once the loop has gone
    through the names [pre], starting from [emptyPackage]. *)
Record pass1 (p0 : Package) (pre : list string) (w : work) : Prop :=
  { p1_env : same_env (w_p w) p0;
    p1_objs : p_objs (w_p w) = ∅;
    p1_structs : p_structs (w_p w) = [];
    p1_funcs : p_funcs (w_p w) = [];
    p1_syms : ∀ k, syms (p_syms (w_p w)) !! k = if decide (k ∈ pre) then symModel p0 k else None;
    p1_consts : p_consts (w_p w) = omap (constModel p0) pre;
    p1_vars : p_vars (w_p w) = omap (varModel p0) pre;
    p1_wfuncs : ∀ k, w_funcs w !! k = if decide (k ∈ pre) then funcModel p0 k else None;
    p1_wstructs : ∀ k, w_structs w !! k = if decide (k ∈ pre) then structModel p0 k else None }.

(** A constructor of the struct named [k], built from the model [s0] of
    its declaration: a package-level function returning the type of the
    struct, with its doc looked up again under [k] and its flag set. *)
Definition ctorOf (p0 : Package) (k : string) (s0 : Struct) (c : Func) : Prop :=
  ∃ n f0 o d,
    funcModel p0 n = Some f0 ∧ Func_Return f0 = Some (Struct_GoType s0) ∧
    types.Lookup (scopeOf p0) n = Some o ∧ getDoc p0 k o = Ok d ∧ c = asCtor f0 d.

(** A struct as the loop appends it to the package. *)
Definition finished (p0 : Package) (s : Struct) (k : string) : Prop :=
  ∃ s0 ms cs,
    structModel p0 k = Some s0 ∧
    methods p0 k (NewMethodSetOfPointer (Struct_GoType s0)) = Ok ms ∧
    s = withMethods (withCtors s0 cs) ms
          (hasStringer (NewMethodSetOfPointer (Struct_GoType s0))) ∧
    Forall (ctorOf p0 k s0) cs.

(** What holds once the loop has gone through the structs [pre], from the
    state [w1] the first loop left. *)
Record pass2 (p0 : Package) (w1 : work) (pre : list string) (w : work) : Prop :=
  { q_env : same_env (w_p w) p0;
    q_syms : p_syms (w_p w) = p_syms (w_p w1);
    q_consts : p_consts (w_p w) = p_consts (w_p w1);
    q_vars : p_vars (w_p w) = p_vars (w_p w1);
    q_funcs : p_funcs (w_p w) = [];
    q_sub : ∀ n f, w_funcs w !! n = Some f → funcModel p0 n = Some f;
    q_rest : ∀ k, k ∉ pre → w_structs w !! k = structModel p0 k;
    q_fin : Forall2 (finished p0) (p_structs (w_p w)) pre;
    q_gone : ∀ n, n ∈ ctorNames (p_structs (w_p w)) → w_funcs w !! n = None;
    q_nodup : NoDup (ctorNames (p_structs (w_p w)));
    q_cover : ∀ n f, funcModel p0 n = Some f →
                     w_funcs w !! n = Some f ∨ n ∈ ctorNames (p_structs (w_p w));
    q_ret : ∀ s n f, s ∈ p_structs (w_p w) → w_funcs w !! n = Some f →
                     Func_Return f ≠ Some (Struct_GoType s);
    q_objs : ∀ k v, p_objs (w_p w) !! k = Some v ↔
                    ∃ s, s ∈ p_structs (w_p w) ∧ Struct_GoName s = k ∧ v = BStruct s }.

(** What holds of the package [process] returns. *)
Record analysed (p0 : Package) (p : Package) : Prop :=
  { a_pkg : p_pkg p = p_pkg p0;
    a_doc : p_doc p = p_doc p0;
    a_syms : ∀ k, syms (p_syms p) !! k = symModel p0 k;
    a_consts : p_consts p = omap (constModel p0) (types.Names (scopeOf p0));
    a_vars : p_vars p = omap (varModel p0) (types.Names (scopeOf p0));
    a_structs : Forall2 (finished p0) (p_structs p) (Struct_GoName <$> p_structs p);
    a_struct_names : NoDup (Struct_GoName <$> p_structs p);
    a_struct_all : ∀ k, k ∈ Struct_GoName <$> p_structs p ↔ is_Some (structModel p0 k);
    a_ctor_names : NoDup (ctorNames (p_structs p));
    a_func_names : NoDup (Func_GoName <$> p_funcs p);
    a_funcs : ∀ f, f ∈ p_funcs p ↔
                   ∃ n, funcModel p0 n = Some f ∧ n ∉ ctorNames (p_structs p);
    a_ctors : ∀ n, n ∈ ctorNames (p_structs p) → is_Some (funcModel p0 n);
    a_ret : ∀ s f, s ∈ p_structs p → f ∈ p_funcs p →
                   Func_Return f ≠ Some (Struct_GoType s);
    a_objs : ∀ k v, p_objs p !! k = Some v ↔
                    (∃ s, s ∈ p_structs p ∧ Struct_GoName s = k ∧ v = BStruct s) ∨
                    (∃ f, f ∈ p_funcs p ∧ Func_GoName f = k ∧ v = BFunc f) }.

(** Distinct type names of the scope denote distinct types. *)
Definition distinctTypes (scope : types.Scope) : Prop :=
  ∀ t1 t2, OTypeName t1 ∈ scope → OTypeName t2 ∈ scope →
           types.tn_Type t1 = types.tn_Type t2 → types.tn_Name t1 = types.tn_Name t2.

End Bind.

(** ** Reading of the documentation buckets

    What [getDoc] looks up, said without loops: the doc text of the first
    entry of a bucket that carries the name, and the empty string when there
    is none. *)

Definition valueDoc (n : string) (bucket : list doc.Value) : string :=
  default "" (doc.value_Doc <$> head (filter (λ c, n ∈ doc.value_Names c) bucket)).

Definition entryDoc (n : string) (bucket : list doc.Func) : string :=
  default "" (doc.func_Doc <$> head (filter (λ m, doc.func_Name m = n) bucket)).

Definition typeDoc (n : string) (bucket : list doc.Type_) : string :=
  default "" (doc.type_Doc <$> head (filter (λ t, doc.type_Name t = n) bucket)).

(** The bucket of a callable: the free functions for a package-level
    function looked up without enclosing type, and otherwise the methods
    (for a method) or the constructors (for a package-level function) of the
    entries of the enclosing type. *)
Definition callableBucket (d : doc.Package) (parent : string) (o : types.Func) : list doc.Func :=
  if types.func_Parent o && bool_decide (parent = "") then doc.Funcs d
  else
    concat ((if types.func_Parent o then doc.type_Funcs else doc.type_Methods)
              <$> filter (λ t, doc.type_Name t = parent) (doc.Types d)).

Definition humanDoc (d : doc.Package) (parent : string) (o : types.Func) : string :=
  entryDoc (types.func_Name o) (callableBucket d parent o).

(** The signature line in the spec's words: [name(paramType [paramName],
    ...) resultType ...], where an entry is the name of the semantic type
    of a parameter or result, followed by its declared name when it has
    one, and the entries are separated by a comma and a blank. *)
Definition entryText `{Collaborators} (v : types.Var) : string :=
  if decide (types.var_Name v = "")
  then pyTypeName (types.var_Type v)
  else pyTypeName (types.var_Type v) +:+ " " +:+ types.var_Name v.

Fixpoint commaSeparated (entries : list string) : string :=
  match entries with
  | [] => ""
  | [entry] => entry
  | entry :: rest => entry +:+ ", " +:+ commaSeparated rest
  end.

Definition signatureLine `{Collaborators} (o : types.Func) : string :=
  types.func_Name o +:+ "(" +:+
  commaSeparated (entryText <$> types.sig_Params (types.func_Sig o)) +:+ ") " +:+
  commaSeparated (entryText <$> types.sig_Results (types.func_Sig o)).

(** ** Packages up to the order of map iteration *)





(** ** Identities *)


(** ** The rest of [package.go], and what decides the outcome of [process] *)

Section Outcomes.

Context `{Collaborators}.

(** [func (p *Package) Name() string]. *)
Definition Package_Name (p : Package) : string := types.pkg_Name (p_pkg p).


Definition Func_GoType (f : Func) : option Typ := f_typ f.
Definition Func_Signature (f : Func) : Signature := f_sig f.

(** The results [newFuncFrom] takes: none, one, or two of which the second
    is of the error type. *)
Definition acceptedResults (sig : types.Signature) : bool :=
  match types.sig_Results sig with
  | [] => true
  | [_] => true
  | [_; r1] => isErrorType (types.var_Type r1)
  | _ => false
  end.

(** The declarations the [switch] of the first loop of [process] has a case
    for that does not panic. *)
Definition supportedKind (o : Object) : bool :=
  match o with
  | OConst _ => true
  | OVar _ => true
  | OFunc _ => true
  | OTypeName t =>
      match types.tn_Kind t with
      | types.NamedStruct => true
      | _ => false
      end
  | OOther _ _ => false
  end.

(** An outcome without its value. *)
Definition forget {E A} (r : outcome E A) : outcome E unit := r ≫= λ _, Ok tt.

(** The outcome of one turn of the loop over [scope.Names()], read off
    [process]: it does not depend on the turns before. *)
Definition verdict (p : Package) (name : string) : result unit :=
  match types.Lookup (scopeOf p) name with
  | None => Panic "nil pointer dereference"
  | Some obj =>
      if negb (Exported obj) then Ok tt
      else
        match obj with
        | OConst _ => Ok tt
        | OVar _ => Ok tt
        | OFunc fo => forget (newFuncFrom p "" obj (types.func_Sig fo))
        | OTypeName t =>
            match types.tn_Kind t with
            | types.NamedStruct => Ok tt
            | types.NamedOther => Panic "not yet supported: %v (%T)"
            | types.NotNamed => Panic "interface conversion"
            end
        | OOther _ _ => Panic "not yet supported: %v (%T)"
        end
  end.

(** The message of the panic of the first loop of [process] at an exported
    declaration it has no case for: the [panic] of the [default] cases, or
    the failed type assertion of [obj.Type()] to a named type. *)
Definition unsupportedPanic (o : Object) : string :=
  match o with
  | OTypeName t =>
      match types.tn_Kind t with
      | types.NotNamed => "interface conversion"
      | _ => "not yet supported: %v (%T)"
      end
  | _ => "not yet supported: %v (%T)"
  end.

(** The outcome of the turns of the loop over the names [l], one after the
    other. *)
Definition verdicts (p : Package) (l : list string) : result unit :=
  foldM (λ _ k, verdict p k) tt l.

(** The kinds of declarations. *)
Inductive DeclKind := KConst | KVar | KFunc | KType | KOther.

#[global] Instance DeclKind_eq_dec : EqDecision DeclKind.
Proof. solve_decision. Defined.

Definition kindOf (o : Object) : DeclKind :=
  match o with
  | OConst _ => KConst
  | OVar _ => KVar
  | OFunc _ => KFunc
  | OTypeName _ => KType
  | OOther _ _ => KOther
  end.

(** The exported names of a scope that declare an object of a kind, in the
    order of [scope.Names()]. *)
Definition exportedNames (scope : types.Scope) (kind : DeclKind) : list string :=
  filter (λ k, IsExported k = true ∧ kindOf <$> types.Lookup scope k = Some kind)
         (types.Names scope).

(** The names of the exported constants, variables, functions and type
    names of a scope. *)
Definition exportedDeclarations (scope : types.Scope) : list string :=
  exportedNames scope KConst ++ exportedNames scope KVar ++
  exportedNames scope KFunc ++ exportedNames scope KType.





End Outcomes.

(** ** A sample module

    The module [geo] of the specification, with a constant, a variable, an
    unexported function and two functions with an error result added, and
    concrete collaborators to run the analysis on it. *)

Module geo.

Definition tInt : Typ := 1%N.
Definition tString : Typ := 2%N.
Definition tError : Typ := 3%N.
Definition tFloat : Typ := 4%N.
Definition tPoint : Typ := 10%N.
Definition tReader : Typ := 12%N.
Definition tFailure : Typ := 13%N.

(** The pointer type of a named type. *)
Definition pointerTo (t : Typ) : Typ := (t + 100)%N.

(** [ast.IsExported] on ASCII names: the first letter is upper case. *)
Definition isUpper (name : string) : bool :=
  match name with
  | String c _ => (65 <=? nat_of_ascii c)%nat && (nat_of_ascii c <=? 90)%nat
  | EmptyString => false
  end.

Definition var (name : string) (t : Typ) : types.Var :=
  {| types.var_Pkg := "geo"; types.var_Name := name; types.var_Type := t |}.

Definition func (name : string) (parent : bool) (t : Typ) (recv : option types.Var)
    (params results : list types.Var) : types.Func :=
  {| types.func_Pkg := Some "geo"; types.func_Name := name; types.func_Parent := parent;
     types.func_Type := t;
     types.func_Sig :=
       {| types.sig_Recv := recv; types.sig_Params := params; types.sig_Results := results |} |}.

Definition struct (name : string) (t : Typ) : types.TypeName :=
  {| types.tn_Pkg := "geo"; types.tn_Name := name; types.tn_Type := t;
     types.tn_Kind := types.NamedStruct |}.

Definition Divide : types.Func :=
  func "Divide" true 101%N None [var "a" tInt; var "b" tInt] [var "" tInt; var "" tError].
Definition NewPoint : types.Func :=
  func "NewPoint" true 102%N None [var "x" tInt; var "y" tInt] [var "" tPoint].
Definition Validate : types.Func :=
  func "Validate" true 103%N None [var "s" tString] [var "" tError].
Definition helper : types.Func := func "helper" true 104%N None [] [var "" tPoint].
Definition Sum : types.Func :=
  func "Sum" true 105%N None [var "a" tInt; var "b" tInt]
       [var "" tInt; var "" tInt; var "" tError].
Definition String_ : types.Func := func "String" false 107%N (Some (var "p" tPoint)) [] [var "" tString].
Definition norm : types.Func := func "norm" false 108%N (Some (var "p" tPoint)) [] [var "" tFloat].
Definition Origin : types.Var := var "Origin" tPoint.
Definition Pi : types.Const :=
  {| types.const_Pkg := "geo"; types.const_Name := "Pi"; types.const_Type := tFloat |}.
Definition Point : types.TypeName := struct "Point" tPoint.

(** A method of the struct [Reader] with two results of which the second
    is no error, and the method [Error] of the universe, which the struct
    [Failure] has from an embedded [error]. *)
Definition Read : types.Func :=
  func "Read" false 109%N (Some (var "r" tReader)) [] [var "" tInt; var "" tInt].
Definition Error_ : types.Func :=
  {| types.func_Pkg := None; types.func_Name := "Error"; types.func_Parent := false;
     types.func_Type := 110%N;
     types.func_Sig :=
       {| types.sig_Recv :=
            Some {| types.var_Pkg := ""; types.var_Name := ""; types.var_Type := tError |};
          types.sig_Params := [];
          types.sig_Results :=
            [{| types.var_Pkg := ""; types.var_Name := ""; types.var_Type := tString |}] |} |}.
Definition Reader : types.TypeName := struct "Reader" tReader.
Definition Failure : types.TypeName := struct "Failure" tFailure.

(** The entry of a method in the method set of the pointer to [t]: the type
    of the selection is the signature of the method with the receiver set
    to the pointer type. *)
Definition selection (t : Typ) (f : types.Func) : types.Selection :=
  {| types.sel_Obj := f;
     types.sel_Type :=
       {| types.sig_Recv :=
            (λ r, {| types.var_Pkg := types.var_Pkg r; types.var_Name := types.var_Name r;
                     types.var_Type := pointerTo t |}) <$> types.sig_Recv (types.func_Sig f);
          types.sig_Params := types.sig_Params (types.func_Sig f);
          types.sig_Results := types.sig_Results (types.func_Sig f) |} |}.

Definition mkVar (pkg : types.Package) (t : Typ) (objname name d : string) : Var :=
  {| v_id := types.pkg_Name pkg +:+ "_" +:+ objname; v_doc := d; v_name := name; v_typ := t |}.

#[local] Instance collaborators : Collaborators :=
  {| IsExported := isUpper;
     NewMethodSetOfPointer :=
       λ t, if (t =? tPoint)%N then [selection t String_; selection t norm]
            else if (t =? tReader)%N then [selection t Read]
            else if (t =? tFailure)%N then [selection t Error_]
            else [];
     isErrorType := λ t, (t =? tError)%N;
     isStringer :=
       λ o, match o with
            | OFunc f =>
                bool_decide (types.func_Name f = "String") &&
                bool_decide (types.sig_Recv (types.func_Sig f) ≠ None) &&
                bool_decide (types.sig_Params (types.func_Sig f) = []) &&
                bool_decide (types.var_Type <$> types.sig_Results (types.func_Sig f) = [tString])
            | _ => false
            end;
     pyTypeName :=
       λ t, if (t =? tInt)%N then "int"
            else if (t =? tString)%N then "str"
            else if (t =? tFloat)%N then "float"
            else "object";
     newVar := λ pkg _ t objname name d, mkVar pkg t objname name d;
     newVarFrom :=
       λ pkg _ v, mkVar pkg (types.var_Type v) (types.var_Name v) (types.var_Name v) "";
     newVarsFrom :=
       λ pkg _ vs,
         (λ v, mkVar pkg (types.var_Type v) (types.var_Name v) (types.var_Name v) "") <$> vs |}.

Definition scope : types.Scope :=
  [OFunc Divide; OFunc NewPoint; OVar Origin; OConst Pi; OTypeName Point;
   OFunc Validate; OFunc helper].

Definition pkg : types.Package := {| types.pkg_Name := "geo"; types.pkg_Scope := scope |}.

Definition docs : doc.Package :=
  {| doc.Consts := [ {| doc.value_Doc := "Pi is the circle constant."; doc.value_Names := ["Pi"] |} ];
     doc.Types :=
       [ {| doc.type_Doc := "Point is a point of the plane."; doc.type_Name := "Point";
            doc.type_Funcs :=
              [ {| doc.func_Doc := "NewPoint returns a new point."; doc.func_Name := "NewPoint" |} ];
            doc.type_Methods :=
              [ {| doc.func_Doc := "String formats the point."; doc.func_Name := "String" |} ] |} ];
     doc.Vars := [];
     doc.Funcs :=
       [ {| doc.func_Doc := "Divide divides a by b."; doc.func_Name := "Divide" |} ] |}.

(** A run of Go that ranges over every map in the order of its keys here,
    and one that ranges in the opposite order. *)
Definition inOrder : MapOrder :=
  {| orderStructs := id; orderFuncs := λ _, id; orderRest := id |}.

Definition backwards : MapOrder :=
  {| orderStructs := reverse; orderFuncs := λ _, reverse; orderRest := reverse |}.

Definition noPackage : Package :=
  emptyPackage {| types.pkg_Name := ""; types.pkg_Scope := [] |}
               {| doc.Consts := []; doc.Types := []; doc.Vars := []; doc.Funcs := [] |}.

Definition noFunc : Func :=
  {| f_sig := {| sig_ret := []; sig_args := []; sig_recv := None |};
     f_typ := None; f_name := ""; f_id := ""; f_doc := ""; f_ret := None;
     f_err := false; f_ctor := false |}.

Definition completed (r : result Package) : Package :=
  match r with Ok p => p | _ => noPackage end.

(** The completed package of [geo]. *)
Definition model : Package := Eval vm_compute in completed (NewPackage inOrder pkg docs).

Definition divideModel : Func :=
  Eval vm_compute in
    match newFuncFrom (emptyPackage pkg docs) "" (OFunc Divide) (types.func_Sig Divide) with
    | Ok f => f
    | _ => noFunc
    end.

Definition newPointModel : Func :=
  Eval vm_compute in
    match newFuncFrom (emptyPackage pkg docs) "" (OFunc NewPoint) (types.func_Sig NewPoint) with
    | Ok f => f
    | _ => noFunc
    end.

Definition pointModel : Struct :=
  Eval vm_compute in
    match p_structs model with
    | s :: _ => s
    | [] =>
        {| s_obj := Point; s_id := ""; s_doc := ""; s_ctors := []; s_meths := [];
           s_prots := 0%Z |}
    end.






End geo.

(** ** Further sample modules *)

Module cases.

#[local] Existing Instance geo.collaborators.

(** A module with a function of three results after a variable and a
    constant. *)
Definition tooMany : types.Package :=
  {| types.pkg_Name := "geo";
     types.pkg_Scope := [OVar geo.Origin; OConst geo.Pi; OFunc geo.Sum] |}.

Definition Celsius : types.TypeName :=
  {| types.tn_Pkg := "geo"; types.tn_Name := "Celsius"; types.tn_Type := 14%N;
     types.tn_Kind := types.NamedOther |}.

(** A module with an exported named type that is no struct, before a
    function of three results. *)
Definition notStruct : types.Package :=
  {| types.pkg_Name := "geo"; types.pkg_Scope := [OTypeName Celsius; OFunc geo.Sum] |}.

Definition celsius : types.TypeName :=
  {| types.tn_Pkg := "geo"; types.tn_Name := "celsius"; types.tn_Type := 15%N;
     types.tn_Kind := types.NamedOther |}.

(** A module that exports nothing. *)
Definition hidden : types.Package :=
  {| types.pkg_Name := "geo";
     types.pkg_Scope := [OTypeName celsius; OOther (Some "geo") "fmt"; OFunc geo.helper] |}.

(** The documentation of [geo] without the entries of its free functions. *)
Definition docsWithoutFuncs : doc.Package :=
  {| doc.Consts := doc.Consts geo.docs; doc.Types := doc.Types geo.docs;
     doc.Vars := doc.Vars geo.docs; doc.Funcs := [] |}.


(** A module with the struct [Point], which has the method [String], and a
    function [String]. *)
Definition StringF : types.Func :=
  geo.func "String" true 111%N None [] [geo.var "" geo.tString].

Definition shadow : types.Package :=
  {| types.pkg_Name := "geo"; types.pkg_Scope := [OTypeName geo.Point; OFunc StringF] |}.

Definition shadowModel : Package :=
  Eval vm_compute in geo.completed (NewPackage geo.inOrder shadow geo.docs).

Definition shadowPoint : Struct :=
  Eval vm_compute in default geo.pointModel (head (p_structs shadowModel)).

(** The model of the method [String] of [Point], and the model of the
    function [String]. *)
Definition stringMethod : Func :=
  Eval vm_compute in default geo.noFunc (head (s_meths shadowPoint)).

Definition stringModel : Func :=
  Eval vm_compute in default geo.noFunc (head (p_funcs shadowModel)).


Definition mixed : types.Package :=
  {| types.pkg_Name := "geo";
     types.pkg_Scope := [OTypeName geo.Failure; OTypeName geo.Reader] |}.








(** A function that has the name of the struct [Point]. *)
Definition pointFunc : Func :=
  {| f_sig := {| sig_ret := []; sig_args := []; sig_recv := None |};
     f_typ := None; f_name := "Point"; f_id := "geo_Point"; f_doc := ""; f_ret := None;
     f_err := false; f_ctor := false |}.

End cases.

(** * Properties *)

Section Properties.

Context `{Collaborators}.

(** ** Outcomes and loops *)

Lemma bind_Ok {E A B} (m : outcome E A) (f : A → outcome E B) b :
  m ≫= f = Ok b ↔ ∃ a, m = Ok a ∧ f a = Ok b.
Proof.
  destruct m as [a| |]; simpl; split; try (intros [? [? ?]]); try done.
  - intros Hf. by exists a.
  - by simplify_eq.
Qed.

(** An invariant indexed by the part of the list already gone through. *)
Lemma foldM_invariant {E S A} (I : list A → S → Prop) (body : S → A → outcome E S) l st0 st :
  I [] st0 →
  (∀ pre x suf st st',
      l = pre ++ x :: suf → I pre st → body st x = Ok st' → I (pre ++ [x]) st') →
  foldM body st0 l = Ok st →
  I l st.
Proof.
  intros H0 Hstep.
  cut (∀ suf pre st1, l = pre ++ suf → I pre st1 → foldM body st1 suf = Ok st → I l st).
  { intros Hcut. by apply (Hcut l [] st0). }
  induction suf as [|x suf IH]; intros pre st1 Hl Hpre Hfold; simpl in Hfold.
  - simplify_eq. by rewrite app_nil_r.
  - apply bind_Ok in Hfold as (st2 & Hb & Hfold).
    apply (IH (pre ++ [x]) st2); [by rewrite <- app_assoc | eauto | done].
Qed.

(** ** getDoc *)

Lemma scanNames_spec n d names :
  scanNames n d names = if decide (n ∈ names) then Some d else None.
Proof.
  induction names as [|cn names IH]; simpl; [done|].
  destruct (decide (n = cn)) as [->|Hne].
  - rewrite decide_True; [done|by left].
  - rewrite IH. destruct (decide (n ∈ names)).
    + rewrite decide_True; [done|by right].
    + rewrite decide_False; [done|]. by intros [?|?]%elem_of_cons.
Qed.

Lemma scanValues_spec n vs : default "" (scanValues n vs) = valueDoc n vs.
Proof.
  unfold valueDoc. induction vs as [|c vs IH]; simpl; [done|].
  rewrite scanNames_spec, filter_cons. destruct (decide (n ∈ doc.value_Names c)); done.
Qed.

Lemma scanFuncs_spec n fs : default "" (scanFuncs n fs) = entryDoc n fs.
Proof.
  unfold entryDoc. induction fs as [|m fs IH]; simpl; [done|].
  rewrite filter_cons. destruct (decide (doc.func_Name m = n)); done.
Qed.

Lemma scanFuncs_app n fs1 fs2 :
  scanFuncs n (fs1 ++ fs2) =
  match scanFuncs n fs1 with Some d => Some d | None => scanFuncs n fs2 end.
Proof.
  induction fs1 as [|m fs1 IH]; simpl; [done|].
  destruct (decide (doc.func_Name m = n)); done.
Qed.

Lemma scanTypes_spec parent n meth ts :
  scanTypes parent n meth ts =
  scanFuncs n (concat ((if meth then doc.type_Methods else doc.type_Funcs)
                         <$> filter (λ t, doc.type_Name t = parent) ts)).
Proof.
  induction ts as [|typ ts IH]; simpl; [done|].
  rewrite filter_cons.
  destruct (decide (doc.type_Name typ ≠ parent)) as [Hne|Heq%dec_stable].
  - rewrite decide_False by done. apply IH.
  - rewrite decide_True by done. simpl. rewrite scanFuncs_app, IH.
    by destruct meth.
Qed.

Lemma scanTypeDocs_spec n ts : default "" (scanTypeDocs n ts) = typeDoc n ts.
Proof.
  unfold typeDoc. induction ts as [|t ts IH]; simpl; [done|].
  rewrite filter_cons. destruct (decide (n = doc.type_Name t)) as [->|Hne].
  - by rewrite decide_True.
  - by rewrite decide_False.
Qed.

Lemma funcDoc_spec p parent o : funcDoc p parent o = humanDoc (p_doc p) parent o.
Proof.
  unfold funcDoc, humanDoc, callableBucket.
  destruct (types.func_Parent o); simpl.
  - destruct (bool_decide (parent = "")); simpl.
    + apply scanFuncs_spec.
    + rewrite scanTypes_spec. apply scanFuncs_spec.
  - rewrite scanTypes_spec. apply scanFuncs_spec.
Qed.

Lemma prefix_append s t : String.prefix s (s +:+ t) = true.
Proof.
  induction s as [|c s IH]; simpl; [by destruct t|].
  destruct (Ascii.ascii_dec c c); [done|congruence].
Qed.

Lemma prefix_same s : String.prefix s s = true.
Proof.
  induction s as [|c s IH]; simpl; [done|].
  destruct (Ascii.ascii_dec c c); [done|congruence].
Qed.

Lemma concat_commaSeparated l : String.concat ", " l = commaSeparated l.
Proof.
  induction l as [|x [|y l] IH]; [done|done|].
  change (String.concat ", " (x :: y :: l)) with (x +:+ ", " +:+ String.concat ", " (y :: l)).
  by rewrite IH.
Qed.

Lemma parseFn_entryText tup : parseFn tup = entryText <$> tup.
Proof.
  unfold parseFn. apply list_fmap_ext. intros _ v _. unfold entryText.
  destruct (decide (types.var_Name v = "")) as [He|Hne].
  - by rewrite decide_False by (intros Hn; by apply Hn).
  - by rewrite decide_True.
Qed.

(** The line [getDoc] builds with [fmt.Sprintf] and [strings.Join] is the
    signature line of the spec. *)
Lemma docSig_spec fo : docSig fo = signatureLine fo.
Proof.
  unfold docSig, signatureLine. by rewrite !concat_commaSeparated, !parseFn_entryText.
Qed.

Lemma prefix_append_append a b c : String.prefix (a +:+ b) (a +:+ b +:+ c) = true.
Proof.
  induction a as [|x a IH].
  - change (String.prefix b (b +:+ c) = true). apply prefix_append.
  - change (String.prefix (String x (a +:+ b)) (String x (a +:+ b +:+ c)) = true). simpl.
    destruct (Ascii.ascii_dec x x); [done|congruence].
Qed.

Lemma append_not_empty a c b : a +:+ String c b ≠ "".

Proof. by destruct a. Qed.

(** C7: for a callable, [getDoc] returns the signature line, followed by a
    blank line and the doc text when the bucket of the callable holds a
    non-empty text for it, and the signature line alone otherwise, so the
    result always begins with the signature line and is never empty; the
    signature line is the name of the callable, its parameters between
    parentheses and its results, each entry the name of the type and the
    declared name if any, separated by a comma and a blank.  For a
    constant, a variable and a type name [getDoc] returns the text looked
    up in the bucket as it is, which is the empty string when there is
    none. *)
Theorem getDoc_signature_line (p : Package) (parent : string) :
  (∀ fo : types.Func,
      getDoc p parent (OFunc fo) =
        Ok (if decide (humanDoc (p_doc p) parent fo = "")
            then signatureLine fo
            else signatureLine fo +:+ newline +:+ newline +:+ humanDoc (p_doc p) parent fo)
      ∧ (∃ r, getDoc p parent (OFunc fo) = Ok r ∧
              String.prefix (signatureLine fo) r = true ∧ r ≠ "")
      ∧ String.prefix (types.func_Name fo +:+ "(") (signatureLine fo) = true
      ∧ signatureLine fo =
          types.func_Name fo +:+ "(" +:+
          commaSeparated (entryText <$> types.sig_Params (types.func_Sig fo)) +:+ ") " +:+
          commaSeparated (entryText <$> types.sig_Results (types.func_Sig fo))) ∧
  (∀ c : types.Const,
      getDoc p parent (OConst c) = Ok (valueDoc (types.const_Name c) (doc.Consts (p_doc p)))) ∧
  (∀ v : types.Var,
      getDoc p parent (OVar v) = Ok (valueDoc (types.var_Name v) (doc.Vars (p_doc p)))) ∧
  (∀ t : types.TypeName,
      getDoc p parent (OTypeName t) = Ok (typeDoc (types.tn_Name t) (doc.Types (p_doc p)))).
Proof.
  assert (∀ fo, signatureLine fo ≠ "") as Hne.
  { intros fo. unfold signatureLine. apply append_not_empty. }
  split; [|split; [|split]].
  - intros fo. split; [|split; [|split]].
    + unfold getDoc. rewrite funcDoc_spec, docSig_spec.
      destruct (decide (humanDoc (p_doc p) parent fo = "")) as [He|Hd].
      * by rewrite decide_False by (intros Hn; by apply Hn).
      * by rewrite decide_True.
    + unfold getDoc. rewrite docSig_spec. destruct (decide (funcDoc p parent fo ≠ "")).
      * eexists; split; [done|]. split; [apply prefix_append|].
        specialize (Hne fo). by destruct (signatureLine fo).
      * eexists; split; [done|]. split; [apply prefix_same|apply Hne].
    + unfold signatureLine. apply prefix_append_append.
    + done.
  - intros c. simpl. by rewrite scanValues_spec.
  - intros v. simpl. by rewrite scanValues_spec.
  - intros t. simpl. by rewrite scanTypeDocs_spec.
Qed.

(** ** newFuncFrom *)

Lemma getDoc_env p p' parent o : same_env p p' → getDoc p parent o = getDoc p' parent o.
Proof.
  intros [_ Hd]. unfold getDoc, funcDoc. by rewrite Hd.
Qed.

Lemma newFuncFrom_env p p' parent o sig :
  same_env p p' → newFuncFrom p parent o sig = newFuncFrom p' parent o sig.
Proof.
  intros Henv. unfold newFuncFrom, newSignatureFrom.
  rewrite (getDoc_env p p') by done. destruct Henv as [-> ->]. done.
Qed.

Lemma newStruct_env p p' t : same_env p p' → newStruct p t = newStruct p' t.
Proof. intros Henv. unfold newStruct. by rewrite (getDoc_env p p'). Qed.

Lemma newConst_env p p' c : same_env p p' → newConst p c = newConst p' c.
Proof.
  intros Henv. unfold newConst. rewrite (getDoc_env p p') by done.
  destruct Henv as [-> ->]. done.
Qed.

Lemma getDoc_func_Ok p parent fo : ∃ d, getDoc p parent (OFunc fo) = Ok d.
Proof. unfold getDoc. destruct (decide (funcDoc p parent fo ≠ "")); eauto. Qed.

Lemma getDoc_no_err p parent o e : getDoc p parent o ≠ Err e.
Proof.
  unfold getDoc. destruct o; try done. by destruct (decide _).
Qed.

(** What an accepted declaration's model holds besides [ret] and [err]. *)
Lemma newFuncFrom_fields p parent obj sig f :
  newFuncFrom p parent obj sig = Ok f →
  f_name f = types.Name obj ∧ funcID parent obj = Ok (f_id f) ∧ f_ctor f = false ∧
  getDoc p parent obj = Ok (f_doc f) ∧ f_sig f = newSignatureFrom p sig ∧
  f_typ f = ObjType obj.
Proof.
  unfold newFuncFrom. intros (re & _ & Hrest)%bind_Ok. destruct re as [ret haserr].
  apply bind_Ok in Hrest as (id & Hid & Hrest).
  apply bind_Ok in Hrest as (d & Hd & Hf). by simplify_eq.
Qed.

Lemma funcID_no_err parent obj e : funcID parent obj ≠ Err e.
Proof.
  unfold funcID, pkgNameOf. destruct (types.PkgName obj); simpl; [|done].
  by destruct (decide _).
Qed.

Lemma funcID_Ok parent obj id :
  funcID parent obj = Ok id ↔
  ∃ n, types.PkgName obj = Some n ∧
       id = if decide (parent ≠ "")
            then n +:+ "_" +:+ parent +:+ "_" +:+ types.Name obj
            else n +:+ "_" +:+ types.Name obj.
Proof.
  unfold funcID, pkgNameOf. destruct (types.PkgName obj) as [n|]; simpl.
  - destruct (decide _); (split; [intros [= <-]; by eauto|by intros (? & [= <-] & ->)]).
  - split; [done|by intros (? & ? & _)].
Qed.

Lemma funcID_Panic parent obj msg :
  funcID parent obj = Panic msg ↔
  types.PkgName obj = None ∧ msg = "nil pointer dereference".
Proof.
  unfold funcID, pkgNameOf. destruct (types.PkgName obj) as [n|]; simpl.
  - destruct (decide _); (split; [done|by intros [? _]]).
  - split; [by intros [= <-]|by intros [_ ->]].
Qed.

(** A function object makes [newFuncFrom] panic only through its package:
    [obj.Pkg()] is nil. *)
Lemma newFuncFrom_func_Panic p parent fo sig msg :
  newFuncFrom p parent (OFunc fo) sig = Panic msg →
  acceptedResults sig = true ∧
  types.func_Pkg fo = None ∧ msg = "nil pointer dereference".
Proof.
  unfold newFuncFrom, funcID, pkgNameOf, acceptedResults.
  destruct (getDoc_func_Ok p parent fo) as [d ->].
  simpl types.PkgName. destruct (types.func_Pkg fo) as [n|].
  - destruct (types.sig_Results sig) as [|r0 [|r1 [|r2 rs]]]; simpl;
      repeat (destruct (isErrorType _); simpl); try done; by case_decide.
  - destruct (types.sig_Results sig) as [|r0 [|r1 [|r2 rs]]]; simpl;
      repeat (destruct (isErrorType _); simpl); try done; by intros [= <-].
Qed.

(** C1: the result-arity policy of an accepted declaration.  Without
    results there is no return type and no error flag; one result of the
    error type gives no return type and the error flag; one result of
    another type is the return type, without error flag; two results whose
    second is of the error type give the first as return type, and the
    error flag. *)
Theorem newFuncFrom_result_arity (p : Package) (parent : string) (obj : Object)
    (sig : types.Signature) (f : Func) :
  newFuncFrom p parent obj sig = Ok f →
  (types.sig_Results sig = [] → f_ret f = None ∧ f_err f = false) ∧
  (∀ r0, types.sig_Results sig = [r0] → isErrorType (types.var_Type r0) = true →
         f_ret f = None ∧ f_err f = true) ∧
  (∀ r0, types.sig_Results sig = [r0] → isErrorType (types.var_Type r0) = false →
         f_ret f = Some (types.var_Type r0) ∧ f_err f = false) ∧
  (∀ r0 r1, types.sig_Results sig = [r0; r1] → isErrorType (types.var_Type r1) = true →
         f_ret f = Some (types.var_Type r0) ∧ f_err f = true).
Proof.
  unfold newFuncFrom. intros (re & Hre & Hrest)%bind_Ok. destruct re as [ret haserr].
  apply bind_Ok in Hrest as (id & _ & Hrest).
  apply bind_Ok in Hrest as (d & _ & Hf). simplify_eq. simpl.
  repeat split; intros; simplify_eq;
    match goal with Hr : types.sig_Results sig = _ |- _ => rewrite Hr in Hre end;
    repeat match goal with He : isErrorType _ = _ |- _ => rewrite He in Hre end;
    simpl in Hre; by simplify_eq.
Qed.

(** C2: [newFuncFrom] returns an error exactly for a declaration with two
    results whose second is not of the error type, and for one with three
    results or more; the error carries the declaration as its argument. *)
Theorem newFuncFrom_error_iff (p : Package) (parent : string) (obj : Object)
    (sig : types.Signature) (e : error) :
  newFuncFrom p parent obj sig = Err e ↔
    (∃ r0 r1, types.sig_Results sig = [r0; r1] ∧
              isErrorType (types.var_Type r1) = false ∧
              e = Errorf "bind: second result value must be of type error: %s" obj) ∨
    (3 ≤ length (types.sig_Results sig) ∧
     e = Errorf "bind: too many results to return: %v" obj).
Proof.
  unfold newFuncFrom.
  destruct (funcID parent obj) as [id|e'|msg'] eqn:Hid;
    [|by apply funcID_no_err in Hid|];
    (destruct (getDoc p parent obj) as [d|e'|msg] eqn:Hd;
       [|by apply getDoc_no_err in Hd|]);
    (destruct (types.sig_Results sig) as [|r0 [|r1 [|r2 rs]]] eqn:Hres; simpl;
     [|destruct (isErrorType (types.var_Type r0)); simpl
      |destruct (isErrorType (types.var_Type r1)) eqn:Herr; simpl|]);
    (split;
     [intros He; simplify_eq; first [left; by eauto | right; split; [simpl; lia|done]]
     |intros [(? & ? & ? & ? & ?)|[? ?]]; simplify_eq; simpl in *; try congruence; by try lia]).
Qed.

(** ** The scope *)

Lemma Lookup_Name scope name o : types.Lookup scope name = Some o → types.Name o = name.
Proof.
  induction scope as [|o' scope IH]; simpl; [done|].
  destruct (decide (types.Name o' = name)); [by intros [= <-]|done].
Qed.

Lemma Lookup_elem_of scope name o : types.Lookup scope name = Some o → o ∈ scope.
Proof.
  induction scope as [|o' scope IH]; simpl; [done|].
  destruct (decide (types.Name o' = name)).
  - intros [= <-]. by left.
  - intros Ho. right. by apply IH.
Qed.

Lemma Lookup_Names scope name : name ∈ types.Names scope → is_Some (types.Lookup scope name).
Proof.
  unfold types.Names. induction scope as [|o' scope IH]; simpl.
  - by intros ?%elem_of_nil.
  - destruct (decide (types.Name o' = name)); [by eauto|].
    intros [?|?]%elem_of_cons; [congruence|by apply IH].
Qed.

Lemma Lookup_NoDup scope o :
  NoDup (types.Names scope) → o ∈ scope → types.Lookup scope (types.Name o) = Some o.
Proof.
  unfold types.Names. induction scope as [|o' scope IH]; simpl.
  - by intros _ ?%elem_of_nil.
  - intros [Hnotin Hnd]%NoDup_cons [->|Hin]%elem_of_cons.
    + by rewrite decide_True.
    + rewrite decide_False; [by apply IH|].
      intros Heq. apply Hnotin. rewrite Heq. by apply list_elem_of_fmap_2.
Qed.

(** ** Tables filled along a list of names *)

Lemma table_snoc_None {A} (m : gmap string A) (g : string → option A) pre name :
  (∀ k, m !! k = if decide (k ∈ pre) then g k else None) →
  g name = None →
  ∀ k, m !! k = if decide (k ∈ pre ++ [name]) then g k else None.
Proof.
  intros Hm Hg k. rewrite Hm.
  destruct (decide (k ∈ pre)) as [Hin|Hnotin].
  - rewrite decide_True; [done|]. apply elem_of_app. by left.
  - destruct (decide (k ∈ pre ++ [name])) as [[?|Hk%list_elem_of_singleton]%elem_of_app|?];
      [done|by subst|done].
Qed.

Lemma table_snoc_Some {A} (m : gmap string A) (g : string → option A) pre name v :
  (∀ k, m !! k = if decide (k ∈ pre) then g k else None) →
  g name = Some v →
  ∀ k, <[name := v]> m !! k = if decide (k ∈ pre ++ [name]) then g k else None.
Proof.
  intros Hm Hg k. destruct (decide (name = k)) as [<-|Hne].
  - rewrite lookup_insert_eq, decide_True; [done|]. apply elem_of_app. right. by left.
  - rewrite lookup_insert_ne, Hm by done.
    destruct (decide (k ∈ pre)) as [Hin|Hnotin].
    + rewrite decide_True; [done|]. apply elem_of_app. by left.
    + rewrite decide_False; [done|].
      intros [?|?%list_elem_of_singleton]%elem_of_app; done.
Qed.

Lemma omap_snoc_None {A B} (g : A → option B) pre x :
  g x = None → omap g (pre ++ [x]) = omap g pre.
Proof. intros Hg. rewrite omap_app. simpl. by rewrite Hg, app_nil_r. Qed.

Lemma omap_snoc_Some {A B} (g : A → option B) pre x y :
  g x = Some y → omap g (pre ++ [x]) = omap g pre ++ [y].
Proof. intros Hg. rewrite omap_app. simpl. by rewrite Hg. Qed.

(** ** The loop over the names of the scope *)

Lemma pass1_init pkg d :
  pass1 (emptyPackage pkg d) [] {| w_p := emptyPackage pkg d; w_funcs := ∅; w_structs := ∅ |}.
Proof. split; try done; intros k; simpl; by rewrite lookup_empty. Qed.

Lemma pass1_declare p0 pre w name w' :
  pass1 p0 pre w →
  declare (scopeOf p0) w name = Ok w' →
  pass1 p0 (pre ++ [name]) w'.
Proof.
  intros [Henv Hobjs Hstructs Hfuncs Hsyms Hconsts Hvars Hwf Hws]. unfold declare.
  destruct (types.Lookup (scopeOf p0) name) as [obj|] eqn:Hlook; [|done].
  pose proof (Lookup_Name _ _ _ Hlook) as <-.
  unfold Exported.
  destruct (IsExported (types.Name obj)) eqn:Hexp; cbn [negb].
  - assert (symModel p0 (types.Name obj) = Some obj) as Hsym
        by (unfold symModel; by rewrite Hexp).
    assert (same_env (registerSymbol (w_p w) obj) p0) as Henv' by done.
    destruct obj as [c|v|fo|t|pkg' n']; lazy beta iota; simpl in Hlook, Hexp, Hsym.
    + unfold addConst.
      intros (p' & (c' & Hc & Hp')%bind_Ok & Hw')%bind_Ok. simplify_eq.
      rewrite (newConst_env _ p0) in Hc by done.
      split; simpl; try done.
      * by apply table_snoc_Some.
      * rewrite Hconsts. symmetry. apply omap_snoc_Some.
        unfold constModel. by rewrite Hlook, Hexp, Hc.
      * rewrite Hvars. symmetry. apply omap_snoc_None.
        unfold varModel. by rewrite Hlook.
      * apply table_snoc_None; [done|]. unfold funcModel. by rewrite Hlook.
      * apply table_snoc_None; [done|]. unfold structModel. by rewrite Hlook.
    + intros [= <-]. destruct Henv as [Hpkg Hdoc].
      split; simpl; try done.
      * by apply table_snoc_Some.
      * rewrite Hconsts. symmetry. apply omap_snoc_None.
        unfold constModel. by rewrite Hlook.
      * rewrite Hvars, Hpkg, Hdoc. symmetry. apply omap_snoc_Some.
        unfold varModel. by rewrite Hlook, Hexp.
      * apply table_snoc_None; [done|]. unfold funcModel. by rewrite Hlook.
      * apply table_snoc_None; [done|]. unfold structModel. by rewrite Hlook.
    + intros (f & Hf & Hw')%bind_Ok. simplify_eq.
      rewrite (newFuncFrom_env _ p0) in Hf by done.
      split; simpl; try done.
      * by apply table_snoc_Some.
      * rewrite Hconsts. symmetry. apply omap_snoc_None.
        unfold constModel. by rewrite Hlook.
      * rewrite Hvars. symmetry. apply omap_snoc_None.
        unfold varModel. by rewrite Hlook.
      * apply table_snoc_Some; [done|]. unfold funcModel. by rewrite Hlook, Hexp, Hf.
      * apply table_snoc_None; [done|]. unfold structModel. by rewrite Hlook.
    + destruct (types.tn_Kind t) eqn:Hkind; try done.
      intros (s & Hs & Hw')%bind_Ok. simplify_eq.
      rewrite (newStruct_env _ p0) in Hs by done.
      split; simpl; try done.
      * by apply table_snoc_Some.
      * rewrite Hconsts. symmetry. apply omap_snoc_None.
        unfold constModel. by rewrite Hlook.
      * rewrite Hvars. symmetry. apply omap_snoc_None.
        unfold varModel. by rewrite Hlook.
      * apply table_snoc_None; [done|]. unfold funcModel. by rewrite Hlook.
      * apply table_snoc_Some; [done|]. unfold structModel.
        by rewrite Hlook, Hexp, Hkind, Hs.
    + done.
  - intros [= <-]. split; try done.
    + apply table_snoc_None; [done|]. unfold symModel. by rewrite Hexp.
    + rewrite Hconsts. symmetry. apply omap_snoc_None.
      unfold constModel. rewrite Hlook, Hexp. by destruct obj.
    + rewrite Hvars. symmetry. apply omap_snoc_None.
      unfold varModel. rewrite Hlook, Hexp. by destruct obj.
    + apply table_snoc_None; [done|]. unfold funcModel. rewrite Hlook, Hexp. by destruct obj.
    + apply table_snoc_None; [done|]. unfold structModel. rewrite Hlook, Hexp. by destruct obj.
Qed.

Lemma pass1_loop pkg d w :
  foldM (declare (types.pkg_Scope pkg))
        {| w_p := emptyPackage pkg d; w_funcs := ∅; w_structs := ∅ |}
        (types.Names (types.pkg_Scope pkg)) = Ok w →
  pass1 (emptyPackage pkg d) (types.Names (types.pkg_Scope pkg)) w.
Proof.
  apply (foldM_invariant (pass1 (emptyPackage pkg d))); [apply pass1_init|].
  intros pre x suf st st' _ Hpre Hbody. by apply (pass1_declare _ _ st).
Qed.

(** ** The loop over a method set *)

Lemma withMethods_withMethods s ms1 b1 ms2 b2 :
  withMethods (withMethods s ms1 b1) ms2 b2 = withMethods s (ms1 ++ ms2) (b1 || b2).
Proof.
  unfold withMethods. simpl. rewrite <- app_assoc. f_equal.
  destruct b1, b2; simpl; try done.
  by rewrite <- Z.lor_assoc, Z.lor_diag.
Qed.

Lemma attach_exported p sname s meth :
  Exported (OFunc (types.sel_Obj meth)) = true →
  attach p sname s meth =
    m ← newFuncFrom p sname (OFunc (types.sel_Obj meth)) (types.sel_Type meth);
    Ok (withMethods s [m] (isStringer (OFunc (types.sel_Obj meth)))).
Proof.
  intros Hexp. unfold attach. rewrite Hexp. cbn [negb].
  destruct (newFuncFrom _ _ _ _); try done. simpl.
  by destruct (isStringer _).
Qed.

Lemma attach_unexported p sname s meth :
  Exported (OFunc (types.sel_Obj meth)) = false → attach p sname s meth = Ok s.
Proof. intros Hexp. unfold attach. by rewrite Hexp. Qed.

(** The loop appends the models of the exported methods and sets the
    stringer bit when one of them is a stringer; it fails with the first
    error among the exported methods. *)
Lemma attach_loop p sname s mset :
  foldM (attach p sname) s mset =
    ms ← methods p sname mset; Ok (withMethods s ms (hasStringer mset)).
Proof.
  revert s. induction mset as [|meth rest IH]; intros s.
  - simpl. unfold withMethods. rewrite app_nil_r. by destruct s.
  - unfold hasStringer, exportedMethods. rewrite filter_cons. cbn [foldM methods].
    destruct (Exported (OFunc (types.sel_Obj meth))) eqn:Hexp.
    + rewrite decide_True by done. rewrite attach_exported by done. cbn [negb existsb].
      destruct (newFuncFrom _ _ _ _) as [m|e|msg]; try done. simpl.
      rewrite IH. destruct (methods p sname rest) as [ms|e|msg]; try done. simpl.
      by rewrite withMethods_withMethods.
    + rewrite decide_False by done. rewrite attach_unexported by done.
      cbn [negb]. simpl. apply IH.
Qed.

Lemma methods_env p p' sname mset :
  same_env p p' → methods p sname mset = methods p' sname mset.
Proof.
  intros Henv. induction mset as [|meth rest IH]; simpl; [done|].
  by rewrite IH, (newFuncFrom_env p p').
Qed.


(** The models are those of the exported entries, in their order. *)
Lemma methods_Forall2 p sname mset ms :
  methods p sname mset = Ok ms →
  Forall2 (λ m meth,
             newFuncFrom p sname (OFunc (types.sel_Obj meth)) (types.sel_Type meth) = Ok m)
          ms (exportedMethods mset).
Proof.
  revert ms. induction mset as [|meth rest IH]; intros ms; simpl.
  - intros [= <-]. constructor.
  - unfold exportedMethods. rewrite filter_cons.
    destruct (Exported (OFunc (types.sel_Obj meth))) eqn:Hexp; cbn [negb].
    + rewrite decide_True by done.
      intros (m & Hm & (ms' & Hms & [= <-])%bind_Ok)%bind_Ok.
      constructor; [done|by apply IH].
    + rewrite decide_False by done. apply IH.
Qed.

(** ** The loop over the functions, for one struct *)

Lemma filter_ext_in {A} (P Q : A → Prop) `{∀ x, Decision (P x)} `{∀ x, Decision (Q x)}
    (l : list A) :
  (∀ x, x ∈ l → P x ↔ Q x) → filter P l = filter Q l.
Proof.
  induction l as [|x l IH]; intros Hext; [done|].
  rewrite !filter_cons. rewrite IH by (intros y Hy; apply Hext; by right).
  destruct (decide (P x)) as [HP|HP], (decide (Q x)) as [HQ|HQ]; try done.
  - exfalso. apply HQ, Hext; [by left|done].
  - exfalso. apply HP, Hext; [by left|done].
Qed.

Lemma withCtors_withCtors s cs1 cs2 :
  withCtors (withCtors s cs1) cs2 = withCtors s (cs1 ++ cs2).
Proof. unfold withCtors. simpl. by rewrite <- app_assoc. Qed.

Lemma withCtors_nil s : withCtors s [] = s.
Proof. unfold withCtors. rewrite app_nil_r. by destruct s. Qed.

Lemma claimed_delete ty funcs n0 n :
  n ≠ n0 → claimed ty (delete n0 funcs) n = claimed ty funcs n.
Proof. intros Hne. unfold claimed. by rewrite lookup_delete_ne. Qed.

(** Over a list of distinct names, the loop moves to the struct exactly the
    listed entries of [funcs] whose return type is the type of the struct,
    in the order of the list, and touches no other entry. *)
Lemma claim_loop p scope sname l s funcs structs st' :
  NoDup l →
  foldM (claim p scope sname) (s, funcs, structs) l = Ok st' →
  ∃ cs,
    st'.1.1 = withCtors s cs ∧
    (∀ n, st'.1.2 !! n =
          if decide (n ∈ l)
          then (if claimed (Struct_GoType s) funcs n then None else funcs !! n)
          else funcs !! n) ∧
    Forall2 (λ c n, ∃ fct o d,
               funcs !! n = Some fct ∧ types.Lookup scope n = Some o ∧
               getDoc p sname o = Ok d ∧ c = asCtor fct d)
            cs (filter (λ n, claimed (Struct_GoType s) funcs n = true) l) ∧
    (∀ k, k ≠ sname → st'.2 !! k = structs !! k).
Proof.
  revert s funcs structs. induction l as [|n0 l IH]; intros s funcs structs Hnd.
  - intros [= <-]. exists []. simpl. rewrite withCtors_nil.
    repeat split. constructor.
  - apply NoDup_cons in Hnd as [Hn0 Hnd]. cbn [foldM].
    intros (st1 & Hclaim & Hloop)%bind_Ok.
    assert (claimed (Struct_GoType s) funcs n0 = false →
            st1 = (s, funcs, structs) →
            ∃ cs,
              st'.1.1 = withCtors s cs ∧
              (∀ n, st'.1.2 !! n =
                    if decide (n ∈ n0 :: l)
                    then (if claimed (Struct_GoType s) funcs n then None else funcs !! n)
                    else funcs !! n) ∧
              Forall2 (λ c n, ∃ fct o d,
                         funcs !! n = Some fct ∧ types.Lookup scope n = Some o ∧
                         getDoc p sname o = Ok d ∧ c = asCtor fct d)
                      cs (filter (λ n, claimed (Struct_GoType s) funcs n = true) (n0 :: l)) ∧
              (∀ k, k ≠ sname → st'.2 !! k = structs !! k)) as Hskip.
    { intros Hno ->. destruct (IH _ _ _ Hnd Hloop) as (cs & Hs & Hf & Hcs & Hst).
      exists cs. repeat split; [done| |by rewrite filter_cons, decide_False by (by rewrite Hno)|done].
      intros n. rewrite Hf. destruct (decide (n = n0)) as [->|Hne].
      - rewrite decide_False, decide_True, Hno by (done || by left). done.
      - destruct (decide (n ∈ l)).
        + rewrite decide_True by (by right). done.
        + rewrite decide_False; [done|]. by intros [?|?]%elem_of_cons. }
    unfold claim in Hclaim.
    destruct (funcs !! n0) as [fct|] eqn:Hfct;
      [|apply Hskip; [unfold claimed; by rewrite Hfct|by simplify_eq]].
    destruct (Func_Return fct) as [r|] eqn:Hret;
      [|apply Hskip; [unfold claimed; by rewrite Hfct, Hret|by simplify_eq]].
    destruct (decide (r = Struct_GoType s)) as [->|Hne];
      [|apply Hskip; [|by simplify_eq]; unfold claimed; rewrite Hfct, Hret;
        apply bool_decide_eq_false; congruence].
    clear Hskip.
    assert (claimed (Struct_GoType s) funcs n0 = true) as Hyes.
    { unfold claimed. rewrite Hfct, Hret. by apply bool_decide_eq_true. }
    destruct (types.Lookup scope n0) as [o|] eqn:Hlook; [|done].
    apply bind_Ok in Hclaim as (d & Hd & [= <-]).
    destruct (IH _ _ _ Hnd Hloop) as (cs & Hs & Hf & Hcs & Hst).
    exists (asCtor fct d :: cs). repeat split.
    + rewrite Hs. apply (withCtors_withCtors s [asCtor fct d] cs).
    + intros n. rewrite Hf. change (Struct_GoType (withCtors s [asCtor fct d])) with (Struct_GoType s).
      destruct (decide (n = n0)) as [->|Hne].
      * rewrite decide_False, decide_True, Hyes, lookup_delete_eq by (done || by left). done.
      * rewrite claimed_delete, lookup_delete_ne by done.
        destruct (decide (n ∈ l)).
        -- rewrite decide_True by (by right). done.
        -- rewrite decide_False; [done|]. by intros [?|?]%elem_of_cons.
    + rewrite filter_cons, decide_True by done. constructor; [by eauto 10|].
      rewrite (filter_ext_in _ (λ n, claimed (Struct_GoType s) (delete n0 funcs) n = true)).
      * eapply Forall2_impl; [exact Hcs|]. intros c n (fct' & o' & d' & Hf' & ?).
        apply lookup_delete_Some in Hf' as [_ Hf']. by eauto 10.
      * intros n Hn. rewrite claimed_delete; [done|]. by intros ->.
    + intros k Hk. rewrite Hst by done. by rewrite lookup_insert_ne.
Qed.

(** ** What the first loop leaves in the working maps *)

Lemma funcModel_Some p0 k f :
  funcModel p0 k = Some f →
  ∃ fo, types.Lookup (scopeOf p0) k = Some (OFunc fo) ∧ IsExported k = true ∧
        newFuncFrom p0 "" (OFunc fo) (types.func_Sig fo) = Ok f ∧
        types.func_Name fo = k ∧ Func_GoName f = k ∧ f_ctor f = false ∧
        ∃ pk, types.func_Pkg fo = Some pk ∧ f_id f = pk +:+ "_" +:+ k.
Proof.
  unfold funcModel. destruct (types.Lookup (scopeOf p0) k) as [[| |fo| |]|] eqn:Hlook; try done.
  destruct (IsExported k); [|done].
  destruct (newFuncFrom _ _ _ _) as [f'| |] eqn:Hf; try done. intros [= <-].
  apply Lookup_Name in Hlook as Hname. simpl in Hname.
  apply newFuncFrom_fields in Hf as Hfields. destruct Hfields as (Hn & Hid & Hc & _).
  apply funcID_Ok in Hid as (pk & Hpk & Hid).
  rewrite decide_False in Hid by (intros Hne; by apply Hne). simpl in Hpk, Hid.
  exists fo. unfold Func_GoName. rewrite Hn. simpl. rewrite Hname in Hid.
  repeat split; try done. by exists pk.
Qed.

Lemma structModel_Some p0 k s :
  structModel p0 k = Some s →
  ∃ t, types.Lookup (scopeOf p0) k = Some (OTypeName t) ∧ IsExported k = true ∧
       types.tn_Kind t = types.NamedStruct ∧ types.tn_Name t = k ∧
       s_obj s = t ∧ s_id s = types.tn_Pkg t +:+ "_" +:+ k ∧
       s_ctors s = [] ∧ s_meths s = [] ∧ s_prots s = 0%Z ∧
       getDoc p0 "" (OTypeName t) = Ok (s_doc s).
Proof.
  unfold structModel.
  destruct (types.Lookup (scopeOf p0) k) as [[| | |t|]|] eqn:Hlook; try done.
  destruct (IsExported k); [|done].
  destruct (types.tn_Kind t) eqn:Hkind; try done.
  destruct (newStruct p0 t) as [s'| |] eqn:Hs; try done. intros [= <-].
  apply Lookup_Name in Hlook as Hname. simpl in Hname.
  unfold newStruct in Hs. apply bind_Ok in Hs as (d & Hd & [= <-]).
  exists t. cbn [s_obj s_id s_doc s_ctors s_meths s_prots]. by rewrite Hname.
Qed.

Lemma Lookup_None_Names scope k : k ∉ types.Names scope → types.Lookup scope k = None.
Proof.
  intros Hk. destruct (types.Lookup scope k) as [o|] eqn:Hlook; [|done].
  exfalso. apply Hk. rewrite <- (Lookup_Name _ _ _ Hlook).
  apply list_elem_of_fmap_2. by apply Lookup_elem_of in Hlook.
Qed.

Lemma pass1_tables p0 w :
  pass1 p0 (types.Names (scopeOf p0)) w →
  (∀ k, w_funcs w !! k = funcModel p0 k) ∧
  (∀ k, w_structs w !! k = structModel p0 k) ∧
  (∀ k, syms (p_syms (w_p w)) !! k = symModel p0 k).
Proof.
  intros Hp1. repeat split; intros k.
  - rewrite (p1_wfuncs _ _ _ Hp1). destruct (decide _) as [|Hk]; [done|].
    unfold funcModel. by rewrite Lookup_None_Names.
  - rewrite (p1_wstructs _ _ _ Hp1). destruct (decide _) as [|Hk]; [done|].
    unfold structModel. by rewrite Lookup_None_Names.
  - rewrite (p1_syms _ _ _ Hp1). destruct (decide _) as [|Hk]; [done|].
    unfold symModel. rewrite Lookup_None_Names by done. by destruct (IsExported k).
Qed.

(** ** The loop over the structs *)

Lemma keys_elem_of {A} (m : gmap string A) k : k ∈ keys m ↔ is_Some (m !! k).
Proof.
  unfold keys. rewrite list_elem_of_fmap. split.
  - intros ([k' v] & -> & Hin). apply elem_of_map_to_list in Hin. by eexists.
  - intros [v Hv]. exists (k, v). split; [done|]. by apply elem_of_map_to_list.
Qed.

Lemma keys_NoDup {A} (m : gmap string A) : NoDup (keys m).
Proof. apply NoDup_fst_map_to_list. Qed.

Lemma claimed_true ty funcs n :
  claimed ty funcs n = true ↔ ∃ fct, funcs !! n = Some fct ∧ Func_Return fct = Some ty.
Proof.
  unfold claimed. destruct (funcs !! n) as [fct|]; [|by split; [|intros (? & ? & _)]].
  rewrite bool_decide_eq_true. split; [by eauto|]. by intros (? & [= <-] & ?).
Qed.

(** One turn of the loop, for a struct still in the working map: the
    functions returning the type of the struct leave the map of functions
    and become its constructors, and the exported methods are attached. *)
Lemma reclassify_step ord p0 w k s0 w' :
  admissible ord →
  same_env (w_p w) p0 →
  w_structs w !! k = Some s0 →
  reclassify ord (scopeOf p0) w k = Ok w' →
  ∃ cs ms,
    w_p w' = addStruct (w_p w)
               (withMethods (withCtors s0 cs) ms
                  (hasStringer (NewMethodSetOfPointer (Struct_GoType s0)))) ∧
    methods p0 k (NewMethodSetOfPointer (Struct_GoType s0)) = Ok ms ∧
    (∀ n, w_funcs w' !! n =
          if claimed (Struct_GoType s0) (w_funcs w) n then None else w_funcs w !! n) ∧
    Forall2 (λ c n, ∃ fct o d,
               w_funcs w !! n = Some fct ∧ types.Lookup (scopeOf p0) n = Some o ∧
               getDoc p0 k o = Ok d ∧ c = asCtor fct d)
            cs (filter (λ n, claimed (Struct_GoType s0) (w_funcs w) n = true)
                       (orderFuncs ord k (keys (w_funcs w)))) ∧
    (∀ k', k' ≠ k → w_structs w' !! k' = w_structs w !! k').
Proof.
  intros (_ & Hord & _) Henv Hs0. unfold reclassify. rewrite Hs0.
  intros ([[s1 funcs1] structs1] & Hclaim & Hrest)%bind_Ok.
  apply bind_Ok in Hrest as (s2 & Hattach & [= <-]).
  apply claim_loop in Hclaim as (cs & Hs1 & Hfuncs & Hcs & Hstructs);
    [|rewrite Hord; apply keys_NoDup].
  simpl in Hs1, Hfuncs, Hstructs. subst s1.
  rewrite attach_loop in Hattach. apply bind_Ok in Hattach as (ms & Hms & [= <-]).
  change (Struct_GoType (withCtors s0 cs)) with (Struct_GoType s0) in *.
  exists cs, ms. simpl. repeat split; [by rewrite <- (methods_env _ _ _ _ Henv)| | |done].
  - intros n. rewrite Hfuncs. destruct (decide _) as [|Hn]; [done|].
    rewrite Hord, keys_elem_of in Hn. unfold claimed.
    destruct (w_funcs w !! n); [|done]. exfalso. by apply Hn.
  - eapply Forall2_impl; [exact Hcs|]. intros c n (fct & o & d & ? & ? & Hd & ?).
    rewrite (getDoc_env _ p0) in Hd by done. by eauto 10.
Qed.

Lemma finished_fields p0 s k :
  finished p0 s k →
  ∃ s0 ms,
    structModel p0 k = Some s0 ∧
    methods p0 k (NewMethodSetOfPointer (Struct_GoType s0)) = Ok ms ∧
    s_obj s = s_obj s0 ∧ s_id s = s_id s0 ∧ s_doc s = s_doc s0 ∧
    s_meths s = ms ∧
    s_prots s = (if hasStringer (NewMethodSetOfPointer (Struct_GoType s0))
                 then Z.lor 0 ProtoStringer else 0%Z) ∧
    Forall (ctorOf p0 k s0) (s_ctors s) ∧
    Struct_GoName s = k ∧ Struct_GoType s = Struct_GoType s0.
Proof.
  intros (s0 & ms & cs & Hs0 & Hms & -> & Hcs).
  apply structModel_Some in Hs0 as Hfields.
  destruct Hfields as (t & _ & _ & _ & Hname & Hobj & _ & Hctors & Hmeths & Hprots & _).
  exists s0, ms. unfold Struct_GoName, Struct_GoType. simpl.
  subst t. rewrite Hctors, Hmeths, Hprots. by repeat split.
Qed.

Lemma ctorNames_snoc ss s : ctorNames (ss ++ [s]) = ctorNames ss ++ (Func_GoName <$> s_ctors s).
Proof. unfold ctorNames. rewrite bind_app. simpl. by rewrite app_nil_r. Qed.

Lemma elem_of_ctorNames ss n :
  n ∈ ctorNames ss ↔ ∃ s c, s ∈ ss ∧ c ∈ s_ctors s ∧ Func_GoName c = n.
Proof.
  unfold ctorNames. rewrite list_elem_of_bind. split.
  - intros (s & (c & -> & Hc)%list_elem_of_fmap & Hs). by eauto.
  - intros (s & c & Hs & Hc & <-). exists s. split; [|done]. by apply list_elem_of_fmap_2.
Qed.

Lemma pass2_init p0 w1 :
  pass1 p0 (types.Names (scopeOf p0)) w1 → pass2 p0 w1 [] w1.
Proof.
  intros Hp1. destruct (pass1_tables _ _ Hp1) as (Hf & Hs & _).
  destruct Hp1 as [Henv Hobjs Hstructs Hfuncs _ _ _ _ _].
  split; try done; rewrite ?Hstructs.
  - intros n f. by rewrite Hf.
  - constructor.
  - by intros n ?%elem_of_nil.
  - constructor.
  - intros n f. rewrite Hf. by left.
  - by intros s n f ?%elem_of_nil.
  - intros k v. rewrite Hobjs, lookup_empty. split; [done|].
    by intros (s & ?%elem_of_nil & _).
Qed.

Lemma finished_names p0 ss pre : Forall2 (finished p0) ss pre → Struct_GoName <$> ss = pre.
Proof.
  induction 1 as [|s k ss pre Hfin _ IH]; [done|]. rewrite fmap_cons, IH.
  apply finished_fields in Hfin as (? & ? & _ & _ & _ & _ & _ & _ & _ & _ & -> & _). done.
Qed.

Lemma ctors_names (R : Func → string → Prop) (cs : list Func) (ns : list string) :
  Forall2 R cs ns → (∀ c n, R c n → Func_GoName c = n) → Func_GoName <$> cs = ns.
Proof.
  intros HF HR. induction HF as [|c n cs ns Hc _ IH]; [done|].
  by rewrite fmap_cons, IH, (HR c n).
Qed.

Lemma pass2_reclassify ord p0 w1 pre w k w' :
  admissible ord →
  pass2 p0 w1 pre w →
  k ∉ pre →
  is_Some (structModel p0 k) →
  reclassify ord (scopeOf p0) w k = Ok w' →
  pass2 p0 w1 (pre ++ [k]) w'.
Proof.
  intros Hadm [Henv Hsyms Hconsts Hvars Hfuncs Hsub Hrest Hfin Hgone Hnodup Hcover Hret Hobjs]
         Hk [s0 Hs0] Hstep.
  assert (w_structs w !! k = Some s0) as Hlook by (by rewrite Hrest).
  destruct (reclassify_step _ _ _ _ _ _ Hadm Henv Hlook Hstep)
    as (cs & ms & Hp & Hms & Hf' & Hcs & Hs').
  set (ty := Struct_GoType s0) in *.
  set (s2 := withMethods (withCtors s0 cs) ms (hasStringer (NewMethodSetOfPointer ty))) in *.
  assert (∀ n f, w_funcs w !! n = Some f → Func_GoName f = n) as Hnames.
  { intros n f Hn. apply Hsub, funcModel_Some in Hn as (? & _ & _ & _ & _ & ? & _). done. }
  assert (s_ctors s2 = cs) as Hctors.
  { apply structModel_Some in Hs0 as (? & _ & _ & _ & _ & _ & _ & Hc & _).
    simpl. by rewrite Hc. }
  assert (Func_GoName <$> cs =
          filter (λ n, claimed ty (w_funcs w) n = true) (orderFuncs ord k (keys (w_funcs w))))
    as Hcsnames.
  { eapply ctors_names; [exact Hcs|]. intros c n (fct & o & d & Hn & _ & _ & ->).
    by apply Hnames in Hn. }
  assert (∀ n, n ∈ Func_GoName <$> cs ↔ claimed ty (w_funcs w) n = true) as Hcsin.
  { intros n. rewrite Hcsnames, list_elem_of_filter. destruct Hadm as (_ & Hord & _).
    rewrite Hord, keys_elem_of. split; [by intros [? _]|]. intros Hc. split; [done|].
    apply claimed_true in Hc as (fct & -> & _). by eexists. }
  assert (finished p0 s2 k) as Hfin2.
  { exists s0, ms, cs. repeat split; try done.
    apply Forall_forall. intros c Hc.
    apply list_elem_of_lookup in Hc as [i Hi].
    destruct (Forall2_lookup_l _ _ _ i c Hcs Hi) as (n & Hn & fct & o & d & Hfn & Ho & Hd & ->).
    exists n, fct, o, d. repeat split; try done; [by apply Hsub|].
    apply list_elem_of_lookup_2, list_elem_of_filter in Hn as [Hn _].
    apply claimed_true in Hn as (fct' & Hfn' & ?). by simplify_eq. }
  assert (Struct_GoName s2 = k) as Hname2.
  { by apply finished_fields in Hfin2 as (? & ? & _ & _ & _ & _ & _ & _ & _ & _ & ? & _). }
  split; rewrite ?Hp; simpl; try done.
  - intros n f. rewrite Hf'. destruct (claimed _ _ _); [done|]. apply Hsub.
  - intros k' Hk'. rewrite not_elem_of_app, list_elem_of_singleton in Hk'.
    destruct Hk' as [? ?]. rewrite Hs' by done. by apply Hrest.
  - apply Forall2_app; [done|]. by constructor.
  - intros n. rewrite ctorNames_snoc, Hctors, elem_of_app, Hf'.
    intros [Hn|Hn]; [by rewrite (Hgone n Hn); destruct (claimed _ _ _)|].
    apply Hcsin in Hn. by rewrite Hn.
  - rewrite ctorNames_snoc, Hctors. apply NoDup_app. repeat split; [done| |].
    + intros n Hn Hn'. apply Hgone in Hn. apply Hcsin, claimed_true in Hn' as (? & ? & _).
      congruence.
    + rewrite Hcsnames. apply NoDup_filter. destruct Hadm as (_ & Hord & _).
      rewrite Hord. apply keys_NoDup.
  - intros n f Hn. rewrite ctorNames_snoc, Hctors, elem_of_app, Hf'.
    destruct (Hcover n f Hn) as [Hin|Hin]; [|by right; left].
    destruct (claimed ty (w_funcs w) n) eqn:Hc; [|by left].
    right. right. by apply Hcsin.
  - intros s n f [Hs|Hs%list_elem_of_singleton]%elem_of_app; rewrite Hf'.
    + destruct (claimed _ _ _); [done|]. by apply Hret.
    + rewrite Hs. destruct (claimed ty (w_funcs w) n) eqn:Hc; [done|].
      intros Hn Hr. apply not_true_iff_false in Hc. apply Hc, claimed_true. by eauto.
  - intros k' v. rewrite Hname2. destruct (decide (k = k')) as [<-|Hne].
    + rewrite lookup_insert_eq. split.
      * intros [= <-]. exists s2. rewrite elem_of_app, list_elem_of_singleton. by eauto.
      * intros (s & [Hs|Hs%list_elem_of_singleton]%elem_of_app & Hn & ->); [|by rewrite Hs].
        exfalso. apply Hk. rewrite <- (finished_names _ _ _ Hfin), <- Hn.
        by apply list_elem_of_fmap_2.
    + rewrite lookup_insert_ne, Hobjs by done. split.
      * intros (s & Hs & Hn & ->). exists s. rewrite elem_of_app. by eauto.
      * intros (s & [Hs|Hs%list_elem_of_singleton]%elem_of_app & Hn & ->); [by eauto|].
        rewrite Hs in Hn. congruence.
Qed.

Lemma pass2_along ord p0 w1 l w2 :
  admissible ord →
  pass1 p0 (types.Names (scopeOf p0)) w1 →
  NoDup l →
  (∀ k, k ∈ l → is_Some (structModel p0 k)) →
  foldM (reclassify ord (scopeOf p0)) w1 l = Ok w2 →
  pass2 p0 w1 l w2.
Proof.
  intros Hadm Hp1 Hnd Hl. apply (foldM_invariant (pass2 p0 w1)); [by apply pass2_init|].
  intros pre k suf w w' Heq Hpre Hstep.
  apply (pass2_reclassify ord _ _ _ w); try done.
  - rewrite Heq in Hnd. apply NoDup_app in Hnd as (_ & Hnd & _).
    intros Hin. apply (Hnd _ Hin). by left.
  - apply Hl. rewrite Heq, elem_of_app, elem_of_cons. by eauto.
Qed.

Lemma structs_order ord p0 w1 :
  admissible ord →
  pass1 p0 (types.Names (scopeOf p0)) w1 →
  NoDup (orderStructs ord (keys (w_structs w1))) ∧
  ∀ k, k ∈ orderStructs ord (keys (w_structs w1)) ↔ is_Some (structModel p0 k).
Proof.
  intros (Hord & _) Hp1. destruct (pass1_tables _ _ Hp1) as (_ & Hs & _). split.
  - rewrite Hord. apply keys_NoDup.
  - intros k. by rewrite Hord, keys_elem_of, Hs.
Qed.

Lemma pass2_loop ord p0 w1 w2 :
  admissible ord →
  pass1 p0 (types.Names (scopeOf p0)) w1 →
  foldM (reclassify ord (scopeOf p0)) w1 (orderStructs ord (keys (w_structs w1))) = Ok w2 →
  pass2 p0 w1 (orderStructs ord (keys (w_structs w1))) w2.
Proof.
  intros Hadm Hp1. destruct (structs_order _ _ _ Hadm Hp1) as [Hnd Hin].
  apply pass2_along; try done. intros k. apply Hin.
Qed.

(** ** The last loop over the functions *)

Lemma keep_loop funcs l p :
  (∀ n f, funcs !! n = Some f → Func_GoName f = n) →
  let p' := foldl (keep funcs) p l in
  p_pkg p' = p_pkg p ∧ p_doc p' = p_doc p ∧ p_syms p' = p_syms p ∧
  p_consts p' = p_consts p ∧ p_vars p' = p_vars p ∧ p_structs p' = p_structs p ∧
  p_funcs p' = p_funcs p ++ omap (funcs !!.) l ∧
  ∀ k, p_objs p' !! k =
       match (if decide (k ∈ l) then funcs !! k else None) with
       | Some f => Some (BFunc f)
       | None => p_objs p !! k
       end.
Proof.
  intros Hnames. revert p. induction l as [|x l IH]; intros p; simpl.
  - rewrite app_nil_r. by repeat split.
  - destruct (IH (keep funcs p x)) as (-> & -> & -> & -> & -> & -> & -> & Hobjs).
    unfold keep at 1 2 3 4 5 6 7. destruct (funcs !! x) as [f|] eqn:Hx; simpl.
    + rewrite <- app_assoc. repeat split. intros k. rewrite Hobjs.
      unfold keep. rewrite Hx. simpl. rewrite (Hnames _ _ Hx).
      destruct (decide (k = x)) as [->|Hne].
      * rewrite lookup_insert_eq, (decide_True (P := x ∈ x :: l)), Hx by (by left).
        by destruct (decide (x ∈ l)).
      * rewrite lookup_insert_ne by done.
        destruct (decide (k ∈ l)).
        -- by rewrite decide_True by (by right).
        -- rewrite decide_False; [done|]. by intros [?|?]%elem_of_cons.
    + repeat split. intros k. rewrite Hobjs. unfold keep. rewrite Hx.
      destruct (decide (k = x)) as [->|Hne].
      * rewrite (decide_True (P := x ∈ x :: l)), Hx by (by left).
        by destruct (decide (x ∈ l)).
      * destruct (decide (k ∈ l)).
        -- by rewrite decide_True by (by right).
        -- rewrite decide_False; [done|]. by intros [?|?]%elem_of_cons.
Qed.

Lemma omap_names (g : string → option Func) (l : list string) :
  (∀ n, n ∈ l → ∃ f, g n = Some f ∧ Func_GoName f = n) →
  Func_GoName <$> omap g l = l.
Proof.
  induction l as [|n l IH]; intros Hl; [done|]. simpl.
  destruct (Hl n) as (f & -> & Hf); [by left|].
  rewrite fmap_cons, Hf. f_equal. apply IH. intros n' Hn'. apply Hl. by right.
Qed.

(** ** The completed package *)

Lemma finished_ctor_names p0 ss pre n :
  Forall2 (finished p0) ss pre → n ∈ ctorNames ss → is_Some (funcModel p0 n).
Proof.
  intros Hfin (s & c & Hs & Hc & <-)%elem_of_ctorNames.
  apply list_elem_of_lookup in Hs as [i Hi].
  destruct (Forall2_lookup_l _ _ _ i s Hfin Hi) as (k & _ & Hsk).
  apply finished_fields in Hsk as (s0 & ms & _ & _ & _ & _ & _ & _ & _ & Hcs & _).
  rewrite Forall_forall in Hcs. destruct (Hcs c Hc) as (n & f0 & o & d & Hn & _ & _ & _ & ->).
  apply funcModel_Some in Hn as Hf. destruct Hf as (_ & _ & _ & _ & _ & Hname & _).
  unfold Func_GoName in *. simpl. rewrite Hname. by eexists.
Qed.

Lemma process_analysed ord pkg d p :
  admissible ord →
  NewPackage ord pkg d = Ok p →
  analysed (emptyPackage pkg d) p.
Proof.
  intros Hadm. unfold NewPackage, process.
  intros (w1 & Hw1 & (w2 & Hw2 & [= <-])%bind_Ok)%bind_Ok.
  set (p0 := emptyPackage pkg d) in *.
  apply pass1_loop in Hw1 as Hp1. fold p0 in Hp1. change (types.pkg_Scope pkg) with (scopeOf p0) in *.
  apply (pass2_loop ord p0) in Hw2 as Hp2; [|done|done].
  destruct (pass1_tables _ _ Hp1) as (Hf1 & Hs1 & Hsy1).
  destruct Hp2 as [Henv Hsyms Hconsts Hvars Hfuncs Hsub Hrest Hfin Hgone Hnodup Hcover Hret Hobjs].
  assert (∀ n f, w_funcs w2 !! n = Some f → Func_GoName f = n) as Hnames.
  { intros n f Hn. apply Hsub, funcModel_Some in Hn as (? & _ & _ & _ & _ & ? & _). done. }
  destruct (keep_loop (w_funcs w2) (orderRest ord (keys (w_funcs w2))) (w_p w2) Hnames)
    as (Hk1 & Hk2 & Hk3 & Hk4 & Hk5 & Hk6 & Hk7 & Hk8).
  destruct Hadm as (HordS & _ & HordR).
  pose proof (finished_names _ _ _ Hfin) as Hsn.
  assert (∀ n f, w_funcs w2 !! n = Some f ↔
                 funcModel p0 n = Some f ∧ n ∉ ctorNames (p_structs (w_p w2))) as Hleft.
  { intros n f. split.
    - intros Hn. split; [by apply Hsub|]. intros Hin. apply Hgone in Hin. congruence.
    - intros [Hn Hnot]. by destruct (Hcover n f Hn). }
  assert (∀ f, f ∈ omap (w_funcs w2 !!.) (orderRest ord (keys (w_funcs w2))) ↔
               ∃ n, w_funcs w2 !! n = Some f) as Helem.
  { intros f. rewrite list_elem_of_omap. split; [by intros (n & _ & ?); eauto|].
    intros (n & Hn). exists n. split; [|done]. rewrite HordR, keys_elem_of. by eexists. }
  split; rewrite ?Hk1, ?Hk2, ?Hk3, ?Hk4, ?Hk5, ?Hk6, ?Hk7, ?Hfuncs, ?app_nil_l.
  - apply Henv.
  - apply Henv.
  - rewrite Hsyms. apply Hsy1.
  - rewrite Hconsts. apply (p1_consts _ _ _ Hp1).
  - rewrite Hvars. apply (p1_vars _ _ _ Hp1).
  - by rewrite Hsn.
  - rewrite Hsn, HordS. apply keys_NoDup.
  - intros k. by rewrite Hsn, HordS, keys_elem_of, Hs1.
  - done.
  - rewrite omap_names; [rewrite HordR; apply keys_NoDup|].
    intros n Hn. rewrite HordR, keys_elem_of in Hn. destruct Hn as [f Hn].
    exists f. split; [done|]. by apply Hnames.
  - intros f. rewrite Helem. split; intros (n & Hn); exists n; by apply Hleft.
  - intros n Hn. by apply (finished_ctor_names _ _ _ _ Hfin).
  - intros s f Hs (n & Hn)%Helem. by apply (Hret s n f).
  - intros k v. rewrite Hk8. setoid_rewrite Helem.
    destruct (decide (k ∈ orderRest ord (keys (w_funcs w2)))) as [Hin|Hnotin].
    + rewrite HordR, keys_elem_of in Hin. destruct Hin as [f Hf]. rewrite Hf. split.
      * intros [= <-]. right. exists f. split; [by eauto|]. split; [by apply Hnames|done].
      * intros [(s & Hs & Hname & ->)|(f' & (n & Hn) & Hname & ->)].
        -- exfalso. apply list_elem_of_lookup in Hs as [i Hi].
           destruct (Forall2_lookup_l _ _ _ i s Hfin Hi) as (k' & _ & Hsk).
           apply finished_fields in Hsk as (s0 & ms & Hs0 & _ & _ & _ & _ & _ & _ & _ & Hk' & _).
           apply structModel_Some in Hs0 as (t & Hlt & _).
           apply Hsub, funcModel_Some in Hf as (fo & Hlf & _). congruence.
        -- apply Hnames in Hn as Hn'. congruence.
    + rewrite Hobjs. split; [by left|].
      intros [?|(f' & (n & Hn) & Hname & ->)]; [done|].
      exfalso. apply Hnotin. rewrite HordR, keys_elem_of.
      apply Hnames in Hn as Hn'. exists f'. congruence.
Qed.

(** ** Claims on the completed package *)

Lemma analysed_struct p0 p s :
  analysed p0 p → s ∈ p_structs p → finished p0 s (Struct_GoName s).
Proof.
  intros Ha Hs. apply list_elem_of_lookup in Hs as [i Hi].
  destruct (Forall2_lookup_l _ _ _ i s (a_structs _ _ Ha) Hi) as (k & Hk & Hfin).
  rewrite list_lookup_fmap, Hi in Hk. simpl in Hk. by simplify_eq.
Qed.

Lemma analysed_env p0 p : analysed p0 p → same_env p p0.
Proof. intros Ha. split; [apply (a_pkg _ _ Ha)|apply (a_doc _ _ Ha)]. Qed.

Lemma filter_eq_absent (l : list string) n : n ∉ l → filter (λ x, x = n) l = [].
Proof.
  induction l as [|x l IH]; [done|]. rewrite not_elem_of_cons. intros [Hne Hn].
  rewrite filter_cons, decide_False by done. by apply IH.
Qed.

Lemma filter_eq_once (l : list string) n :
  NoDup l → n ∈ l → length (filter (λ x, x = n) l) = 1.
Proof.
  induction 1 as [|x l Hx Hnd IH]; [by intros ?%elem_of_nil|].
  rewrite filter_cons. intros [->|Hin]%elem_of_cons.
  - rewrite decide_True by done. simpl. by rewrite filter_eq_absent.
  - rewrite decide_False; [by apply IH|]. by intros ->.
Qed.

Lemma NoDup_fmap_same {A B} (f : A → B) (l : list A) x y :
  NoDup (f <$> l) → x ∈ l → y ∈ l → f x = f y → x = y.
Proof.
  induction l as [|z l IH]; [by intros _ ?%elem_of_nil|].
  rewrite fmap_cons. intros [Hz Hnd]%NoDup_cons [->|Hx]%elem_of_cons [->|Hy]%elem_of_cons Hf.
  - done.
  - exfalso. apply Hz. rewrite Hf. by apply list_elem_of_fmap_2.
  - exfalso. apply Hz. rewrite <- Hf. by apply list_elem_of_fmap_2.
  - by apply IH.
Qed.

Lemma structModel_type_inj p0 k1 k2 s1 s2 :
  distinctTypes (scopeOf p0) →
  structModel p0 k1 = Some s1 → structModel p0 k2 = Some s2 →
  Struct_GoType s1 = Struct_GoType s2 → k1 = k2.
Proof.
  intros Hinj (t1 & Hl1 & _ & _ & <- & Ho1 & _)%structModel_Some
              (t2 & Hl2 & _ & _ & <- & Ho2 & _)%structModel_Some Hty.
  unfold Struct_GoType in Hty. rewrite Ho1, Ho2 in Hty.
  apply Hinj; [by apply Lookup_elem_of in Hl1|by apply Lookup_elem_of in Hl2|done].
Qed.

(** C3: a package-level function [fo] whose model [f0] returns the type of
    a struct of the completed package is not in the list of functions; its
    name is once, and only once, among the constructors of all structs, in
    the list of a struct [s] of that type, as [f0] with its doc looked up
    again under the name of [s] and the constructor flag set; [s] is the
    given struct when distinct type names denote distinct types; and no
    name is twice among the constructors of all structs. *)
Theorem constructors_reclassified (ord : MapOrder) (pkg : types.Package) (d : doc.Package)
    (p : Package) (n : string) (fo : types.Func) (f0 : Func) (T : Struct) :
  admissible ord →
  NewPackage ord pkg d = Ok p →
  types.Lookup (types.pkg_Scope pkg) n = Some (OFunc fo) →
  IsExported n = true →
  newFuncFrom p "" (OFunc fo) (types.func_Sig fo) = Ok f0 →
  T ∈ p_structs p →
  Func_Return f0 = Some (Struct_GoType T) →
  (∀ f, f ∈ p_funcs p → Func_GoName f ≠ n) ∧
  length (filter (λ x, x = n) (ctorNames (p_structs p))) = 1 ∧
  (∃ s c dd,
      s ∈ p_structs p ∧ c ∈ s_ctors s ∧ Func_GoName c = n ∧
      Struct_GoType s = Struct_GoType T ∧
      (distinctTypes (types.pkg_Scope pkg) → s = T) ∧
      getDoc p (Struct_GoName s) (OFunc fo) = Ok dd ∧
      c = asCtor f0 dd ∧ f_ctor c = true ∧ Func_Doc c = dd) ∧
  NoDup (ctorNames (p_structs p)).
Proof.
  intros Hadm Hp Hlook Hexp Hf0 HT Hret.
  pose proof (process_analysed _ _ _ _ Hadm Hp) as Ha.
  pose proof (analysed_env _ _ Ha) as Henv.
  set (p0 := emptyPackage pkg d) in *.
  rewrite (newFuncFrom_env _ p0) in Hf0 by done.
  assert (funcModel p0 n = Some f0) as Hmodel.
  { unfold funcModel. change (scopeOf p0) with (types.pkg_Scope pkg). by rewrite Hlook, Hexp, Hf0. }
  assert (n ∈ ctorNames (p_structs p)) as Hin.
  { destruct (decide (n ∈ ctorNames (p_structs p))) as [|Hnot]; [done|]. exfalso.
    assert (f0 ∈ p_funcs p) as Hf by (apply (a_funcs _ _ Ha); by eauto).
    by apply (a_ret _ _ Ha T f0). }
  split; [|split; [|split]].
  - intros f Hf Hname. apply (a_funcs _ _ Ha) in Hf as (n' & Hn' & Hnot).
    apply funcModel_Some in Hn' as (_ & _ & _ & _ & _ & Hname' & _). congruence.
  - apply filter_eq_once; [apply (a_ctor_names _ _ Ha)|done].
  - apply elem_of_ctorNames in Hin as (s & c & Hs & Hc & Hname).
    pose proof (analysed_struct _ _ _ Ha Hs) as Hfin.
    apply finished_fields in Hfin as (s0 & ms & Hs0 & _ & _ & _ & _ & _ & _ & Hcs & _ & Hty).
    rewrite Forall_forall in Hcs.
    destruct (Hcs c Hc) as (n' & f0' & o & dd & Hn' & Hret' & Hlook' & Hdd & ->).
    apply funcModel_Some in Hn' as Hfields.
    destruct Hfields as (_ & _ & _ & _ & _ & Hname' & _).
    assert (n' = n) as -> by (unfold Func_GoName in *; simpl in Hname; congruence).
    change (scopeOf p0) with (types.pkg_Scope pkg) in Hlook'.
    assert (f0' = f0) as -> by congruence. assert (o = OFunc fo) as -> by congruence.
    exists s, (asCtor f0 dd), dd. rewrite (getDoc_env _ p0) by done.
    repeat split; try done; [congruence|].
    intros Hinj. pose proof (analysed_struct _ _ _ Ha HT) as HfinT.
    apply finished_fields in HfinT
      as (s0T & msT & Hs0T & _ & _ & _ & _ & _ & _ & _ & _ & HtyT).
    apply (NoDup_fmap_same Struct_GoName (p_structs p));
      [apply (a_struct_names _ _ Ha)|done|done|].
    apply (structModel_type_inj p0 _ _ s0 s0T); (done || congruence).
  - apply (a_ctor_names _ _ Ha).
Qed.

(** C4: the method list of a struct of the completed package holds, in the
    order of the method set of the pointer to its type, the model of every
    exported entry of that method set, built with the struct as enclosing
    type, and nothing else; no model in it has an unexported name. *)
Theorem methods_of_aggregate (ord : MapOrder) (pkg : types.Package) (d : doc.Package)
    (p : Package) (s : Struct) :
  admissible ord →
  NewPackage ord pkg d = Ok p →
  s ∈ p_structs p →
  Forall2 (λ m meth,
             newFuncFrom p (Struct_GoName s) (OFunc (types.sel_Obj meth)) (types.sel_Type meth)
             = Ok m)
          (s_meths s)
          (filter (λ meth, Exported (OFunc (types.sel_Obj meth)) = true)
                  (NewMethodSetOfPointer (Struct_GoType s))) ∧
  (∀ m, m ∈ s_meths s → IsExported (Func_GoName m) = true).
Proof.
  intros Hadm Hp Hs.
  pose proof (process_analysed _ _ _ _ Hadm Hp) as Ha.
  pose proof (analysed_env _ _ Ha) as Henv.
  pose proof (analysed_struct _ _ _ Ha Hs) as Hfin.
  apply finished_fields in Hfin as (s0 & ms & _ & Hms & _ & _ & _ & Hmeths & _ & _ & _ & Hty).
  rewrite <- Hty in Hms. apply methods_Forall2 in Hms. rewrite Hmeths.
  assert (Forall2 (λ m meth,
             newFuncFrom p (Struct_GoName s) (OFunc (types.sel_Obj meth)) (types.sel_Type meth)
             = Ok m) ms (exportedMethods (NewMethodSetOfPointer (Struct_GoType s)))) as HF.
  { eapply Forall2_impl; [exact Hms|]. intros m meth Hm. simpl in Hm.
    by rewrite (newFuncFrom_env _ (emptyPackage pkg d)). }
  split; [exact HF|].
  intros m [i Hi]%list_elem_of_lookup.
  destruct (Forall2_lookup_l _ _ _ i m HF Hi) as (meth & Hmeth & Hm).
  apply list_elem_of_lookup_2, list_elem_of_filter in Hmeth as [Hexp _].
  apply newFuncFrom_fields in Hm as (Hname & _). unfold Func_GoName. by rewrite Hname.
Qed.

(** C5: a struct of the completed package has the bit of [ProtoStringer] set
    exactly when some exported entry of the method set of the pointer to its
    type is a stringer. *)
Theorem stringer_bit_iff (ord : MapOrder) (pkg : types.Package) (d : doc.Package)
    (p : Package) (s : Struct) :
  admissible ord →
  NewPackage ord pkg d = Ok p →
  s ∈ p_structs p →
  Z.land (s_prots s) ProtoStringer ≠ 0%Z ↔
  ∃ meth, meth ∈ NewMethodSetOfPointer (Struct_GoType s) ∧
          Exported (OFunc (types.sel_Obj meth)) = true ∧
          isStringer (OFunc (types.sel_Obj meth)) = true.
Proof.
  intros Hadm Hp Hs.
  pose proof (process_analysed _ _ _ _ Hadm Hp) as Ha.
  pose proof (analysed_struct _ _ _ Ha Hs) as Hfin.
  apply finished_fields in Hfin as (s0 & ms & _ & _ & _ & _ & _ & _ & Hprots & _ & _ & Hty).
  rewrite Hprots, <- Hty.
  assert (hasStringer (NewMethodSetOfPointer (Struct_GoType s)) = true ↔
          ∃ meth, meth ∈ NewMethodSetOfPointer (Struct_GoType s) ∧
                  Exported (OFunc (types.sel_Obj meth)) = true ∧
                  isStringer (OFunc (types.sel_Obj meth)) = true) as <-.
  { unfold hasStringer, exportedMethods. rewrite existsb_exists. split.
    - intros (meth & Hin & Hstr). apply list_elem_of_In, list_elem_of_filter in Hin.
      destruct Hin as [Hexp Hin]. by exists meth.
    - intros (meth & Hin & Hexp & Hstr). exists meth. split; [|done].
      apply list_elem_of_In, list_elem_of_filter. done. }
  destruct (hasStringer (NewMethodSetOfPointer (Struct_GoType s))).
  - change (Z.land (Z.lor 0 ProtoStringer) ProtoStringer) with 1%Z.
    split; [done|intros _; lia].
  - rewrite Z.land_0_l. split; [intros Hn; by destruct Hn|done].
Qed.

(** C9: an unexported declaration of the scope leaves no trace: its name is
    not a key of the symbol table, no constant, function, struct or
    constructor of the completed package bears its name, and every variable
    of the package is the model of a declaration of another name. *)
Theorem unexported_ignored (ord : MapOrder) (pkg : types.Package) (d : doc.Package)
    (p : Package) (o : Object) :
  admissible ord →
  NewPackage ord pkg d = Ok p →
  o ∈ types.pkg_Scope pkg →
  Exported o = false →
  syms (p_syms p) !! types.Name o = None ∧
  (∀ k o', syms (p_syms p) !! k = Some o' → Exported o' = true) ∧
  (∀ c, c ∈ p_consts p → Const_GoName c ≠ types.Name o) ∧
  (∀ v, v ∈ p_vars p →
        ∃ tv, OVar tv ∈ types.pkg_Scope pkg ∧ types.var_Name tv ≠ types.Name o ∧
              v = newVarFrom pkg d tv) ∧
  (∀ f, f ∈ p_funcs p → Func_GoName f ≠ types.Name o) ∧
  (∀ s, s ∈ p_structs p →
        Struct_GoName s ≠ types.Name o ∧
        ∀ c, c ∈ s_ctors s → Func_GoName c ≠ types.Name o).
Proof.
  intros Hadm Hp Ho Hexp. unfold Exported in Hexp.
  pose proof (process_analysed _ _ _ _ Hadm Hp) as Ha.
  set (p0 := emptyPackage pkg d) in *.
  assert (∀ n f, funcModel p0 n = Some f → n ≠ types.Name o) as Hfm.
  { intros n f (_ & _ & Hn & _)%funcModel_Some ->. congruence. }
  repeat split.
  - rewrite (a_syms _ _ Ha). unfold symModel. by rewrite Hexp.
  - intros k o'. rewrite (a_syms _ _ Ha). unfold symModel, Exported.
    destruct (IsExported k) eqn:Hk; [|done]. intros Hl.
    by rewrite (Lookup_Name _ _ _ Hl).
  - intros c. rewrite (a_consts _ _ Ha), list_elem_of_omap. intros (k & _ & Hk) Hname.
    unfold constModel in Hk.
    destruct (types.Lookup (scopeOf p0) k) as [[c'| | | |]|] eqn:Hl; try done.
    destruct (IsExported k) eqn:Hek; [|done].
    destruct (newConst p0 c') as [m| |] eqn:Hm; try done. simplify_eq.
    unfold newConst in Hm. apply bind_Ok in Hm as (dd & _ & [= <-]).
    apply Lookup_Name in Hl. unfold Const_GoName in Hname. simpl in *. congruence.
  - intros v. rewrite (a_vars _ _ Ha), list_elem_of_omap. intros (k & _ & Hk).
    unfold varModel in Hk.
    destruct (types.Lookup (scopeOf p0) k) as [[|tv| | |]|] eqn:Hl; try done.
    destruct (IsExported k) eqn:Hek; [|done]. simplify_eq.
    exists tv. split; [by apply Lookup_elem_of in Hl|]. split; [|done].
    apply Lookup_Name in Hl. simpl in Hl. congruence.
  - intros f (n & Hn & _)%(a_funcs _ _ Ha) Hname.
    apply funcModel_Some in Hn as Hfields.
    destruct Hfields as (_ & _ & _ & _ & _ & Hname' & _). apply (Hfm _ _ Hn). congruence.
  - intros Hname.
    assert (is_Some (structModel p0 (Struct_GoName s))) as [s0 Hs0].
    { apply (a_struct_all _ _ Ha). by apply list_elem_of_fmap_2. }
    apply structModel_Some in Hs0 as (_ & _ & Hk & _). congruence.
  - intros c Hc Hname.
    assert (is_Some (funcModel p0 (Func_GoName c))) as [f Hf].
    { apply (a_ctors _ _ Ha), elem_of_ctorNames. by eauto. }
    by apply (Hfm _ _ Hf).
Qed.


(** ** Independence of the order of map iteration *)

Lemma foldM_fails {E S A} (body : S → A → outcome E S) l st0 r :
  foldM body st0 l = r →
  (∀ st, r ≠ Ok st) →
  ∃ pre x suf st, l = pre ++ x :: suf ∧ foldM body st0 pre = Ok st ∧ body st x = r.
Proof.
  revert st0. induction l as [|x l IH]; intros st0; simpl.
  - intros <- Hr. by destruct (Hr st0).
  - destruct (body st0 x) as [st1|e|msg] eqn:Hx; simpl.
    + intros Hl Hr. destruct (IH _ Hl Hr) as (pre & y & suf & st & -> & Hpre & Hy).
      exists (x :: pre), y, suf, st. simpl. rewrite Hx. simpl. done.
    + intros <- _. by exists [], x, l, st0.
    + intros <- _. by exists [], x, l, st0.
Qed.

(** The loop over the functions goes through when every function of the
    map is declared in the scope as a function. *)
Lemma claim_loop_total p scope sname l s funcs structs :
  (∀ n fct, funcs !! n = Some fct → ∃ fo, types.Lookup scope n = Some (OFunc fo)) →
  ∃ st', foldM (claim p scope sname) (s, funcs, structs) l = Ok st'.
Proof.
  revert s funcs structs. induction l as [|n l IH]; intros s funcs structs Hdecl; simpl.
  - by eexists.
  - destruct (funcs !! n) as [fct|] eqn:Hn; simpl; [|by apply IH].
    destruct (Func_Return fct) as [r|]; simpl; [|by apply IH].
    destruct (decide (r = Struct_GoType s)); simpl; [|by apply IH].
    destruct (Hdecl _ _ Hn) as [fo ->].
    destruct (getDoc_func_Ok p sname fo) as [dd ->]. simpl. apply IH.
    intros n' fct' [_ Hn']%lookup_delete_Some. by apply (Hdecl n' fct').
Qed.

(** One turn of the loop over the structs ends as the loop over the method
    set of the struct does: with the error of a refused method, or with the
    panic of a method without package. *)
Lemma reclassify_outcome ord p0 w1 pre w k s0 :
  admissible ord →
  pass2 p0 w1 pre w →
  k ∉ pre →
  structModel p0 k = Some s0 →
  match reclassify ord (scopeOf p0) w k with
  | Ok _ => ∃ ms, methods p0 k (NewMethodSetOfPointer (Struct_GoType s0)) = Ok ms
  | Err e => methods p0 k (NewMethodSetOfPointer (Struct_GoType s0)) = Err e
  | Panic msg => methods p0 k (NewMethodSetOfPointer (Struct_GoType s0)) = Panic msg
  end.
Proof.
  intros Hadm Hp2 Hk Hs0. unfold reclassify.
  rewrite (q_rest _ _ _ _ Hp2) by done. rewrite Hs0.
  destruct (claim_loop_total (w_p w) (scopeOf p0) k
              (orderFuncs ord k (keys (w_funcs w))) s0 (w_funcs w) (w_structs w))
    as [[[s1 funcs1] structs1] Hclaim].
  { intros n fct Hn. apply (q_sub _ _ _ _ Hp2), funcModel_Some in Hn as (fo & ? & _).
    by eauto. }
  rewrite Hclaim. simpl.
  apply claim_loop in Hclaim as (cs & Hs1 & _);
    [|destruct Hadm as (_ & Hord & _); rewrite Hord; apply keys_NoDup].
  simpl in Hs1. subst s1. rewrite attach_loop.
  change (Struct_GoType (withCtors s0 cs)) with (Struct_GoType s0).
  rewrite (methods_env _ p0) by apply (q_env _ _ _ _ Hp2).
  destruct (methods p0 k _) as [ms|e|msg] eqn:Hms; simpl; [by eauto|done|done].
Qed.

(** The loop over the structs completes exactly when the loop over the
    method set of every struct does; otherwise it ends as the loop over the
    method set of some struct: with the error of a method, or with the
    panic of a method without package. *)
Lemma pass2_outcome ord p0 w1 :
  admissible ord →
  pass1 p0 (types.Names (scopeOf p0)) w1 →
  match foldM (reclassify ord (scopeOf p0)) w1 (orderStructs ord (keys (w_structs w1))) with
  | Ok _ => ∀ k s0, structModel p0 k = Some s0 →
                    ∃ ms, methods p0 k (NewMethodSetOfPointer (Struct_GoType s0)) = Ok ms
  | Err e => ∃ k s0, structModel p0 k = Some s0 ∧
                     methods p0 k (NewMethodSetOfPointer (Struct_GoType s0)) = Err e
  | Panic msg => ∃ k s0, structModel p0 k = Some s0 ∧
                         methods p0 k (NewMethodSetOfPointer (Struct_GoType s0)) = Panic msg
  end.
Proof.
  intros Hadm Hp1. destruct (structs_order _ _ _ Hadm Hp1) as [Hnd Hin].
  destruct (foldM _ _ _) as [w2|e|msg] eqn:Hloop.
  - intros k s0 Hs0. apply pass2_loop in Hloop; [|done|done].
    assert (k ∈ orderStructs ord (keys (w_structs w1))) as Hk by (apply Hin; by eexists).
    apply list_elem_of_lookup in Hk as [i Hi].
    destruct (Forall2_lookup_r _ _ _ i k (q_fin _ _ _ _ Hloop) Hi) as (s & _ & Hfin).
    apply finished_fields in Hfin as (s0' & ms & Hs0' & Hms & _). simplify_eq. by eauto.
  - apply foldM_fails in Hloop as (pre & k & suf & w & Heq & Hpre & Hstep); [|done].
    rewrite Heq in Hnd. apply NoDup_app in Hnd as (Hnd1 & Hnd2 & _).
    destruct (Hin k) as [[s0 Hs0] _]; [rewrite Heq, elem_of_app, elem_of_cons; by eauto|].
    apply pass2_along in Hpre; [|done|done|done|].
    + assert (k ∉ pre) as Hk by (intros Hk; apply (Hnd2 _ Hk); by left).
      pose proof (reclassify_outcome _ _ _ _ _ _ _ Hadm Hpre Hk Hs0) as Hout.
      rewrite Hstep in Hout. by eauto.
    + intros k' Hk'. apply Hin. rewrite Heq, elem_of_app. by left.
  - apply foldM_fails in Hloop as (pre & k & suf & w & Heq & Hpre & Hstep); [|done].
    rewrite Heq in Hnd. apply NoDup_app in Hnd as (Hnd1 & Hnd2 & _).
    destruct (Hin k) as [[s0 Hs0] _]; [rewrite Heq, elem_of_app, elem_of_cons; by eauto|].
    apply pass2_along in Hpre; [|done|done|done|].
    + assert (k ∉ pre) as Hk by (intros Hk; apply (Hnd2 _ Hk); by left).
      pose proof (reclassify_outcome _ _ _ _ _ _ _ Hadm Hpre Hk Hs0) as Hout.
      rewrite Hstep in Hout. by eauto.
    + intros k' Hk'. apply Hin. rewrite Heq, elem_of_app. by left.
Qed.



(** Which functions become constructors does not depend on the order. *)
Lemma ctorNames_char p0 p n :
  analysed p0 p →
  n ∈ ctorNames (p_structs p) ↔
  ∃ f k s0, funcModel p0 n = Some f ∧ structModel p0 k = Some s0 ∧
            Func_Return f = Some (Struct_GoType s0).
Proof.
  intros Ha. split.
  - intros (s & c & Hs & Hc & Hname)%elem_of_ctorNames.
    pose proof (analysed_struct _ _ _ Ha Hs) as Hfin.
    apply finished_fields in Hfin as (s0 & ms & Hs0 & _ & _ & _ & _ & _ & _ & Hcs & _).
    rewrite Forall_forall in Hcs.
    destruct (Hcs c Hc) as (n' & f0 & o & dd & Hn' & Hret & _ & _ & ->).
    apply funcModel_Some in Hn' as Hfields.
    destruct Hfields as (_ & _ & _ & _ & _ & Hname' & _).
    unfold Func_GoName in *. simpl in Hname. exists f0, (Struct_GoName s), s0.
    by replace n with n' by congruence.
  - intros (f & k & s0 & Hf & Hs0 & Hret).
    destruct (decide (n ∈ ctorNames (p_structs p))) as [|Hnot]; [done|]. exfalso.
    assert (f ∈ p_funcs p) as Hin by (apply (a_funcs _ _ Ha); by eauto).
    assert (k ∈ Struct_GoName <$> p_structs p) as (s & -> & Hs)%list_elem_of_fmap
        by (apply (a_struct_all _ _ Ha); by eexists).
    pose proof (analysed_struct _ _ _ Ha Hs) as Hfin.
    apply finished_fields in Hfin as (s0' & ms & Hs0' & _ & _ & _ & _ & _ & _ & _ & _ & Hty).
    simplify_eq. apply (a_ret _ _ Ha s f Hs Hin). by rewrite Hty.
Qed.




(** ** Identities *)


Lemma NoDup_bind_disjoint {A B} (g : A → list B) (l : list A) :
  NoDup l →
  (∀ x, x ∈ l → NoDup (g x)) →
  (∀ x y z, x ∈ l → y ∈ l → z ∈ g x → z ∈ g y → x = y) →
  NoDup (l ≫= g).
Proof.
  induction 1 as [|x l Hx Hnd IH]; intros Hparts Hcross; [constructor|].
  rewrite bind_cons. apply NoDup_app. repeat split.
  - apply Hparts. by left.
  - intros z Hz (y & Hzy & Hy)%list_elem_of_bind.
    apply Hx. by rewrite (Hcross x y z) by (done || by left || by right).
  - apply IH.
    + intros y Hy. apply Hparts. by right.
    + intros y y' z Hy Hy'. apply Hcross; by right.
Qed.



(** The names of the models a loop over names has built. *)
Lemma fmap_omap_names {A} (g : string → option A) (f : A → string) (l : list string) :
  (∀ k x, g k = Some x → f x = k) →
  f <$> omap g l = filter (λ k, is_Some (g k)) l.
Proof.
  intros Hname. induction l as [|k l IH]; [done|]. simpl. rewrite filter_cons.
  destruct (g k) as [x|] eqn:Hk.
  - rewrite decide_True by (by eexists). rewrite fmap_cons, (Hname k x Hk). f_equal. apply IH.
  - rewrite decide_False by (by intros [? ?]). apply IH.
Qed.

Lemma constModel_Some p0 k c :
  constModel p0 k = Some c →
  ∃ c', types.Lookup (scopeOf p0) k = Some (OConst c') ∧ IsExported k = true ∧
        Const_GoName c = k ∧ Const_ID c = types.const_Pkg c' +:+ "_" +:+ k.
Proof.
  unfold constModel.
  destruct (types.Lookup (scopeOf p0) k) as [[c'| | | |]|] eqn:Hlook; try done.
  destruct (IsExported k); [|done].
  destruct (newConst p0 c') as [m| |] eqn:Hm; try done. intros [= <-].
  unfold newConst in Hm. apply bind_Ok in Hm as (dd & _ & [= <-]).
  apply Lookup_Name in Hlook as Hname. simpl in Hname.
  exists c'. unfold Const_GoName, Const_ID. simpl. by rewrite Hname.
Qed.

Lemma varModel_Some p0 k v :
  varModel p0 k = Some v →
  ∃ tv, types.Lookup (scopeOf p0) k = Some (OVar tv) ∧ IsExported k = true ∧
        types.var_Name tv = k ∧ v = newVarFrom (p_pkg p0) (p_doc p0) tv.
Proof.
  unfold varModel.
  destruct (types.Lookup (scopeOf p0) k) as [[|tv| | |]|] eqn:Hlook; try done.
  destruct (IsExported k); [|done]. intros [= <-].
  apply Lookup_Name in Hlook as Hname. by exists tv.
Qed.

Lemma methods_names p sname mset ms :
  methods p sname mset = Ok ms →
  Func_GoName <$> ms = (λ meth, types.func_Name (types.sel_Obj meth)) <$> exportedMethods mset ∧
  ∀ m, m ∈ ms →
       ∃ meth, meth ∈ exportedMethods mset ∧
               funcID sname (OFunc (types.sel_Obj meth)) = Ok (Func_ID m) ∧
               Func_GoName m = types.func_Name (types.sel_Obj meth).
Proof.
  intros HF%methods_Forall2. split.
  - induction HF as [|m meth ms mset' Hm _ IH]; [done|].
    rewrite !fmap_cons, IH. apply newFuncFrom_fields in Hm as (Hname & _).
    unfold Func_GoName. by rewrite Hname.
  - intros m [i Hi]%list_elem_of_lookup.
    destruct (Forall2_lookup_l _ _ _ i m HF Hi) as (meth & Hmeth & Hm).
    apply newFuncFrom_fields in Hm as (Hname & Hid & _).
    exists meth. split; [by apply list_elem_of_lookup_2 in Hmeth|]. by split.
Qed.

End Properties.

(** * Further properties of [package.go] *)

Section Further.

Context `{Collaborators}.

(** ** The builders *)

Lemma getDoc_Panic p parent o msg :
  getDoc p parent o = Panic msg ↔
  msg = "not yet supported: %v (%T)" ∧ ∃ pkg name, o = OOther pkg name.
Proof.
  unfold getDoc.
  destruct o as [c|v|fo|t|pkg name]; try (split; [done|by intros [_ (? & ? & ?)]]).
  - destruct (decide _); (split; [done|by intros [_ (? & ? & ?)]]).
  - split; [intros [= <-]; by eauto|by intros [-> _]].
Qed.

(** X1: [getDoc] never returns an error, and it panics exactly for an object
    that is no constant, variable, function or type name. *)
Theorem getDoc_panic_iff (p : Package) (parent : string) (o : Object) :
  (∀ e, getDoc p parent o ≠ Err e) ∧
  (∀ msg, getDoc p parent o = Panic msg ↔
          msg = "not yet supported: %v (%T)" ∧ ∃ pkg name, o = OOther pkg name).
Proof. split; [intros e; apply getDoc_no_err|]. intros msg. apply getDoc_Panic. Qed.

Lemma newFuncFrom_accepted p parent obj sig :
  acceptedResults sig = true →
  newFuncFrom p parent obj sig =
    id ← funcID parent obj;
    d ← getDoc p parent obj;
    Ok {| f_sig := newSignatureFrom p sig; f_typ := ObjType obj; f_name := types.Name obj;
          f_id := id; f_doc := d;
          f_ret := match types.sig_Results sig with
                   | [r0] => if isErrorType (types.var_Type r0) then None
                             else Some (types.var_Type r0)
                   | [r0; _] => Some (types.var_Type r0)
                   | _ => None
                   end;
          f_err := match types.sig_Results sig with
                   | [r0] => isErrorType (types.var_Type r0)
                   | [_; _] => true
                   | _ => false
                   end;
          f_ctor := false |}.
Proof.
  unfold acceptedResults, newFuncFrom.
  destruct (types.sig_Results sig) as [|r0 [|r1 [|r2 rs]]]; simpl; try done.
  - intros _. by destruct (isErrorType (types.var_Type r0)).
  - by intros ->.
Qed.

Lemma newFuncFrom_refused p parent obj sig :
  acceptedResults sig = false → ∃ e, newFuncFrom p parent obj sig = Err e.
Proof.
  unfold acceptedResults, newFuncFrom.
  destruct (types.sig_Results sig) as [|r0 [|r1 [|r2 rs]]]; simpl; try done.
  - intros ->. by eexists.
  - by eexists.
Qed.


Lemma newConst_Ok p c :
  newConst p c =
    Ok {| c_obj := c;
          c_id := types.const_Pkg c +:+ "_" +:+ types.const_Name c;
          c_doc := valueDoc (types.const_Name c) (doc.Consts (p_doc p));
          c_f :=
            {| f_sig := newSignature p None []
                 [newVar (p_pkg p) (p_doc p) (types.const_Type c) "ret" (types.const_Name c)
                    (valueDoc (types.const_Name c) (doc.Consts (p_doc p)))];
               f_typ := None; f_name := types.const_Name c;
               f_id := "get_" +:+ (types.const_Pkg c +:+ "_" +:+ types.const_Name c);
               f_doc := valueDoc (types.const_Name c) (doc.Consts (p_doc p));
               f_ret := Some (types.const_Type c); f_err := false; f_ctor := false |} |}.
Proof. unfold newConst. simpl. by rewrite scanValues_spec. Qed.

Lemma newStruct_Ok p t :
  newStruct p t =
    Ok {| s_obj := t; s_id := types.tn_Pkg t +:+ "_" +:+ types.tn_Name t;
          s_doc := typeDoc (types.tn_Name t) (doc.Types (p_doc p));
          s_ctors := []; s_meths := []; s_prots := 0%Z |}.
Proof. unfold newStruct. simpl. by rewrite scanTypeDocs_spec. Qed.

(** ** What decides the outcome of [process] *)

Lemma forget_Ok {E A} (r : outcome E A) : forget r = Ok tt ↔ ∃ a, r = Ok a.
Proof. unfold forget. destruct r; simpl; split; try done; try (by intros [? ?]); by eauto. Qed.

Lemma forget_Err {E A} (r : outcome E A) e : forget r = Err e ↔ r = Err e.
Proof. unfold forget. destruct r; simpl; split; try done; by intros [= ->]. Qed.

Lemma forget_Panic {E A} (r : outcome E A) msg : forget r = Panic msg ↔ r = Panic msg.
Proof. unfold forget. destruct r; simpl; split; try done; by intros [= ->]. Qed.

Lemma newFuncFrom_func_Ok_iff p parent fo sig :
  (∃ f, newFuncFrom p parent (OFunc fo) sig = Ok f) ↔
  acceptedResults sig = true ∧ is_Some (types.func_Pkg fo).
Proof.
  destruct (acceptedResults sig) eqn:Hacc.
  - rewrite (newFuncFrom_accepted _ _ _ _ Hacc).
    destruct (funcID parent (OFunc fo)) as [id|e|m] eqn:Hid; cbn -[getDoc].
    + apply funcID_Ok in Hid as (n & Hn & _). simpl in Hn. rewrite Hn.
      destruct (getDoc_func_Ok p parent fo) as [dd ->]. simpl. split; [by eauto|by eauto].
    + by apply funcID_no_err in Hid.
    + apply funcID_Panic in Hid as [Hn _]. simpl in Hn. rewrite Hn.
      split; [by intros [? ?]|by intros [_ [? ?]]].
  - destruct (newFuncFrom_refused p parent (OFunc fo) sig Hacc) as [e ->].
    split; [by intros [? ?]|by intros [? _]].
Qed.

Lemma newFuncFrom_func_Err p parent fo sig e :
  newFuncFrom p parent (OFunc fo) sig = Err e →
  acceptedResults sig = false ∧
  e = Errorf (if decide (length (types.sig_Results sig) = 2)
              then "bind: second result value must be of type error: %s"
              else "bind: too many results to return: %v") (OFunc fo).
Proof.
  destruct (acceptedResults sig) eqn:Hacc.
  - rewrite (newFuncFrom_accepted _ _ _ _ Hacc).
    destruct (funcID parent (OFunc fo)) as [id|e'|m] eqn:Hid; cbn -[getDoc];
      [|by apply funcID_no_err in Hid|done].
    by destruct (getDoc_func_Ok p parent fo) as [dd ->].
  - revert Hacc. unfold acceptedResults, newFuncFrom.
    destruct (types.sig_Results sig) as [|r0 [|r1 [|r2 rs]]]; try done.
    + intros ->. simpl. by intros [= <-].
    + intros _. simpl. by intros [= <-].
Qed.

(** What each outcome of a turn of the first loop says of the name. *)
Lemma verdict_cases p k :
  k ∈ types.Names (scopeOf p) →
  match verdict p k with
  | Ok _ =>
      ∃ o, types.Lookup (scopeOf p) k = Some o ∧
           (Exported o = true →
            supportedKind o = true ∧
            ∀ fo, o = OFunc fo →
                  acceptedResults (types.func_Sig fo) = true ∧ is_Some (types.func_Pkg fo))
  | Err e =>
      ∃ fo, types.Lookup (scopeOf p) k = Some (OFunc fo) ∧ IsExported k = true ∧
            newFuncFrom p "" (OFunc fo) (types.func_Sig fo) = Err e
  | Panic msg =>
      ∃ o, types.Lookup (scopeOf p) k = Some o ∧ Exported o = true ∧
           ((supportedKind o = false ∧ msg = unsupportedPanic o) ∨
            (∃ fo, o = OFunc fo ∧ acceptedResults (types.func_Sig fo) = true ∧
                   types.func_Pkg fo = None ∧ msg = "nil pointer dereference"))
  end.
Proof.
  intros [o Hl]%Lookup_Names. unfold verdict. rewrite Hl.
  pose proof (Lookup_Name _ _ _ Hl) as Hn.
  destruct (Exported o) eqn:Hexp; simpl;
    [|exists o; split; [done|intros ?; congruence]].
  destruct o as [c|v|fo|t|pkg name]; simpl.
  - exists (OConst c). split; [done|]. intros _. split; [done|]. by intros ? [=].
  - exists (OVar v). split; [done|]. intros _. split; [done|]. by intros ? [=].
  - destruct (newFuncFrom p "" (OFunc fo) (types.func_Sig fo)) as [f|e|msg] eqn:Hf; simpl.
    + exists (OFunc fo). split; [done|]. intros _. split; [done|]. intros ? [= <-].
      apply (newFuncFrom_func_Ok_iff p "" fo). by eauto.
    + exists fo. unfold Exported in Hexp. simpl in Hn, Hexp. by rewrite <- Hn.
    + apply newFuncFrom_func_Panic in Hf as (Hacc & Hnil & ->).
      exists (OFunc fo). split; [done|]. split; [done|]. right. by exists fo.
  - destruct (types.tn_Kind t) eqn:Hk.
    + exists (OTypeName t). split; [done|]. intros _. simpl. rewrite Hk. split; [done|].
      by intros ? [=].
    + exists (OTypeName t). simpl. rewrite Hk. split; [done|]. split; [done|]. by left.
    + exists (OTypeName t). simpl. rewrite Hk. split; [done|]. split; [done|]. by left.
  - exists (OOther pkg name). split; [done|]. split; [done|]. by left.
Qed.

Lemma declare_verdict p0 w k :
  same_env (w_p w) p0 → forget (declare (scopeOf p0) w k) = verdict p0 k.
Proof.
  intros Henv. unfold declare, verdict.
  destruct (types.Lookup (scopeOf p0) k) as [obj|]; [|done].
  destruct (negb (Exported obj)); [done|].
  assert (same_env (registerSymbol (w_p w) obj) p0) as Henv' by done.
  destruct obj as [c|v|fo|t|??]; try done.
  - rewrite (newFuncFrom_env _ p0 _ _ _ Henv'). by destruct (newFuncFrom _ _ _ _).
  - by destruct (types.tn_Kind t).
Qed.

(** The first loop ends as the turns decide, one after the other. *)
Lemma declare_loop_verdicts p0 l pre w :
  pass1 p0 pre w →
  forget (foldM (declare (scopeOf p0)) w l) = verdicts p0 l.
Proof.
  revert pre w. induction l as [|k l IH]; intros pre w Hp; [done|].
  unfold verdicts. simpl.
  pose proof (declare_verdict p0 w k (p1_env _ _ _ Hp)) as Hv.
  destruct (declare (scopeOf p0) w k) as [w'|e|msg] eqn:Hd;
    unfold forget in Hv; simpl in Hv; rewrite <- Hv; simpl; [|done|done].
  apply (IH (pre ++ [k])). by eapply pass1_declare.
Qed.

Lemma verdicts_cons p k l : verdicts p (k :: l) = verdict p k ≫= λ _, verdicts p l.
Proof. unfold verdicts. simpl. destruct (verdict p k) as [[]| |]; done. Qed.

Lemma verdicts_Ok p l : verdicts p l = Ok tt ↔ Forall (λ k, verdict p k = Ok tt) l.
Proof.
  induction l as [|k l IH]; [by split|].
  rewrite verdicts_cons, Forall_cons, <- IH.
  destruct (verdict p k) as [[]| |]; simpl; split; try done; try (by intros [? ?]).
Qed.

Lemma verdicts_first p pre k suf :
  Forall (λ n, verdict p n = Ok tt) pre →
  verdict p k ≠ Ok tt →
  verdicts p (pre ++ k :: suf) = verdict p k.
Proof.
  intros Hpre Hk. induction Hpre as [|n pre Hn _ IH]; simpl.
  - rewrite verdicts_cons. by destruct (verdict p k) as [[]| |].
  - rewrite verdicts_cons, Hn. done.
Qed.

Lemma verdicts_fails p l :
  verdicts p l ≠ Ok tt → ∃ k, k ∈ l ∧ verdict p k = verdicts p l.
Proof.
  induction l as [|k l IH]; [done|].
  rewrite verdicts_cons. destruct (verdict p k) as [[]|e|msg] eqn:Hk; simpl.
  - intros (k' & Hin & Hk')%IH. exists k'. split; [by right|done].
  - intros _. exists k. split; [by left|done].
  - intros _. exists k. split; [by left|done].
Qed.


Lemma methods_Err p sname mset e :
  methods p sname mset = Err e →
  ∃ meth, meth ∈ exportedMethods mset ∧
          newFuncFrom p sname (OFunc (types.sel_Obj meth)) (types.sel_Type meth) = Err e.
Proof.
  unfold exportedMethods. induction mset as [|meth rest IH]; simpl; [done|].
  destruct (Exported (OFunc (types.sel_Obj meth))) eqn:Hexp; simpl.
  - rewrite filter_cons_True by done.
    destruct (newFuncFrom p sname (OFunc (types.sel_Obj meth)) (types.sel_Type meth))
      as [m|e'|msg] eqn:Hm; simpl.
    + destruct (methods p sname rest) as [ms|e'|msg] eqn:Hms; simpl; try done.
      intros [= ->]. destruct (IH eq_refl) as (meth' & Hin & Hf).
      exists meth'. split; [by right|done].
    + intros [= ->]. exists meth. split; [by left|done].
    + done.
  - rewrite filter_cons_False by (by rewrite Hexp). intros (meth' & Hin & Hf)%IH. by eauto.
Qed.

Lemma Lookup_in_Names scope k o : types.Lookup scope k = Some o → k ∈ types.Names scope.
Proof.
  intros Hl. pose proof (Lookup_Name _ _ _ Hl) as <-.
  apply list_elem_of_fmap. exists o. split; [done|]. by eapply Lookup_elem_of.
Qed.

Lemma verdicts_Ok_iff p :
  verdicts p (types.Names (scopeOf p)) = Ok tt ↔
  ∀ k o, types.Lookup (scopeOf p) k = Some o → Exported o = true →
         supportedKind o = true ∧
         ∀ fo, o = OFunc fo →
               acceptedResults (types.func_Sig fo) = true ∧ is_Some (types.func_Pkg fo).
Proof.
  rewrite verdicts_Ok, Forall_forall. split.
  - intros Hall k o Hl Hexp. pose proof (verdict_cases p k (Lookup_in_Names _ _ _ Hl)) as Hc.
    rewrite (Hall k (Lookup_in_Names _ _ _ Hl)) in Hc.
    destruct Hc as (o' & Hl' & Ho'). assert (o' = o) as -> by congruence. by apply Ho'.
  - intros Hall k Hk. pose proof (verdict_cases p k Hk) as Hc.
    destruct (verdict p k) as [[]|e|msg]; [done| |].
    + destruct Hc as (fo & Hl & Hexp & Hf).
      pose proof (Lookup_Name _ _ _ Hl) as Hn. simpl in Hn.
      destruct (Hall k (OFunc fo) Hl) as [_ Hacc]; [unfold Exported; simpl; by rewrite Hn|].
      specialize (Hacc fo eq_refl).
      apply (newFuncFrom_func_Ok_iff p "" fo) in Hacc as [f Hf']. congruence.
    + destruct Hc as (o & Hl & Hexp & [[Hk' _]|(fo & -> & _ & Hnil & _)]).
      * destruct (Hall k o Hl Hexp) as [Hs _]. congruence.
      * destruct (Hall k _ Hl Hexp) as [_ Hf]. destruct (Hf fo eq_refl) as [_ [? ?]].
        congruence.
Qed.

Lemma structModel_intro p k t :
  types.Lookup (scopeOf p) k = Some (OTypeName t) → IsExported k = true →
  types.tn_Kind t = types.NamedStruct →
  ∃ s0, structModel p k = Some s0 ∧ s_obj s0 = t.
Proof.
  intros Hl Hexp Hk. unfold structModel. rewrite Hl, Hexp, Hk, newStruct_Ok. by eexists.
Qed.

(** How [NewPackage] ends is decided by the turns of the first loop and,
    when all of them go through, by the loops over the method sets of the
    structs. *)
Lemma NewPackage_outcome ord pkg d :
  admissible ord →
  match NewPackage ord pkg d with
  | Ok p =>
      verdicts (emptyPackage pkg d) (types.Names (types.pkg_Scope pkg)) = Ok tt ∧
      ∀ k s0, structModel (emptyPackage pkg d) k = Some s0 →
              ∃ ms, methods (emptyPackage pkg d) k
                      (NewMethodSetOfPointer (Struct_GoType s0)) = Ok ms
  | Err e =>
      verdicts (emptyPackage pkg d) (types.Names (types.pkg_Scope pkg)) = Err e ∨
      (verdicts (emptyPackage pkg d) (types.Names (types.pkg_Scope pkg)) = Ok tt ∧
       ∃ k s0, structModel (emptyPackage pkg d) k = Some s0 ∧
               methods (emptyPackage pkg d) k
                 (NewMethodSetOfPointer (Struct_GoType s0)) = Err e)
  | Panic msg =>
      verdicts (emptyPackage pkg d) (types.Names (types.pkg_Scope pkg)) = Panic msg ∨
      (verdicts (emptyPackage pkg d) (types.Names (types.pkg_Scope pkg)) = Ok tt ∧
       ∃ k s0, structModel (emptyPackage pkg d) k = Some s0 ∧
               methods (emptyPackage pkg d) k
                 (NewMethodSetOfPointer (Struct_GoType s0)) = Panic msg)
  end.
Proof.
  intros Hadm. unfold NewPackage, process.
  pose proof (declare_loop_verdicts (emptyPackage pkg d) (types.Names (types.pkg_Scope pkg))
                [] _ (pass1_init pkg d)) as Hv.
  change (types.pkg_Scope (p_pkg (emptyPackage pkg d))) with (scopeOf (emptyPackage pkg d)).
  change (types.pkg_Scope pkg) with (scopeOf (emptyPackage pkg d)) in Hv |- *.
  destruct (foldM (declare (scopeOf (emptyPackage pkg d))) _ _) as [w1|e|msg] eqn:H1;
    unfold forget in Hv; simpl in Hv; simpl; [|by left|by left].
  apply pass1_loop in H1. pose proof (pass2_outcome ord _ w1 Hadm H1) as H2.
  destruct (foldM (reclassify ord (scopeOf (emptyPackage pkg d))) _ _) as [w2|e|msg]; simpl.
  - done.
  - by right.
  - by right.
Qed.


(** X4: an error of [NewPackage] is the error of [newFuncFrom] at an
    exported function of the scope, or at an exported method of an exported
    struct of the scope, whose results are refused; the error names that
    function. *)
Theorem NewPackage_error_source (ord : MapOrder) (pkg : types.Package) (d : doc.Package)
    (e : error) :
  admissible ord →
  NewPackage ord pkg d = Err e →
  ∃ fo sig,
    acceptedResults sig = false ∧
    e = Errorf (if decide (length (types.sig_Results sig) = 2)
                then "bind: second result value must be of type error: %s"
                else "bind: too many results to return: %v") (OFunc fo) ∧
    IsExported (types.func_Name fo) = true ∧
    ((types.Lookup (types.pkg_Scope pkg) (types.func_Name fo) = Some (OFunc fo) ∧
      sig = types.func_Sig fo) ∨
     (∃ k t, types.Lookup (types.pkg_Scope pkg) k = Some (OTypeName t) ∧
             IsExported k = true ∧ types.tn_Kind t = types.NamedStruct ∧
             {| types.sel_Obj := fo; types.sel_Type := sig |}
               ∈ NewMethodSetOfPointer (types.tn_Type t))).
Proof.
  intros Hadm He. pose proof (NewPackage_outcome ord pkg d Hadm) as Hout.
  rewrite He in Hout. destruct Hout as [Hv|[_ (k & s0 & Hs0 & Hms)]].
  - destruct (verdicts_fails (emptyPackage pkg d) (types.Names (types.pkg_Scope pkg)))
      as (k & Hk & Hvk); [congruence|].
    rewrite Hv in Hvk. pose proof (verdict_cases (emptyPackage pkg d) k Hk) as Hc.
    rewrite Hvk in Hc. destruct Hc as (fo & Hl & Hexp & Hf).
    pose proof (Lookup_Name _ _ _ Hl) as Hn. simpl in Hn. subst k.
    apply newFuncFrom_func_Err in Hf as [Hacc ->].
    exists fo, (types.func_Sig fo). split; [done|]. split; [done|]. split; [done|]. by left.
  - apply structModel_Some in Hs0 as (t & Hl & Hexp & Hk & Hn & Hobj & _).
    apply methods_Err in Hms as (meth & [Hm Hin]%list_elem_of_filter & Hf).
    apply newFuncFrom_func_Err in Hf as [Hacc ->].
    exists (types.sel_Obj meth), (types.sel_Type meth).
    split; [done|]. split; [done|]. split; [done|]. right. exists k, t.
    unfold Struct_GoType in Hin. rewrite Hobj in Hin. by destruct meth.
Qed.


(** X6: the first name, in the order of [scope.Names()], whose turn of the
    first loop does not go through decides how [NewPackage] ends, whatever
    the order of the maps and whatever comes after it. *)
Theorem first_failure_decides (ord : MapOrder) (pkg : types.Package) (d : doc.Package)
    (pre : list string) (k : string) (suf : list string) :
  types.Names (types.pkg_Scope pkg) = pre ++ k :: suf →
  Forall (λ n, verdict (emptyPackage pkg d) n = Ok tt) pre →
  verdict (emptyPackage pkg d) k ≠ Ok tt →
  forget (NewPackage ord pkg d) = verdict (emptyPackage pkg d) k.
Proof.
  intros Hnames Hpre Hk. unfold NewPackage, process.
  pose proof (declare_loop_verdicts (emptyPackage pkg d) (types.Names (types.pkg_Scope pkg))
                [] _ (pass1_init pkg d)) as Hv.
  rewrite Hnames, (verdicts_first _ _ _ _ Hpre Hk), <- Hnames in Hv.
  change (types.pkg_Scope (p_pkg (emptyPackage pkg d))) with (scopeOf (emptyPackage pkg d)).
  change (types.pkg_Scope pkg) with (scopeOf (emptyPackage pkg d)) in Hv.
  destruct (foldM (declare (scopeOf (emptyPackage pkg d))) _ _) as [w1|e|m];
    unfold forget in Hv |- *; simpl in Hv |- *; [|done|done].
  by destruct Hk.
Qed.

(** ** Two runs over the same module *)





(** ** What the completed package lists *)

Lemma keys_empty {A} : keys (∅ : gmap string A) = [].
Proof. unfold keys. by rewrite map_to_list_empty. Qed.

Lemma declare_unexported scope w k :
  k ∈ types.Names scope → IsExported k = false → declare scope w k = Ok w.
Proof.
  intros [o Hl]%Lookup_Names Hexp. unfold declare, Exported.
  by rewrite Hl, (Lookup_Name _ _ _ Hl), Hexp.
Qed.

(** X7: a module none of whose declarations is exported gives the package
    [NewPackage] starts from, whatever the kinds of its declarations. *)
Theorem nothing_exported (ord : MapOrder) (pkg : types.Package) (d : doc.Package) :
  admissible ord →
  (∀ k, k ∈ types.Names (types.pkg_Scope pkg) → IsExported k = false) →
  NewPackage ord pkg d = Ok (emptyPackage pkg d).
Proof.
  intros (Hstructs & _ & Hrest) Hall. unfold NewPackage, process.
  assert (∀ l w, l ⊆ types.Names (types.pkg_Scope pkg) →
                 foldM (declare (types.pkg_Scope pkg)) w l = Ok w) as Hloop.
  { induction l as [|k l IH]; intros w Hsub; [done|]. simpl.
    rewrite declare_unexported; [|apply Hsub; by left|apply Hall, Hsub; by left].
    simpl. apply IH. intros k' Hk'. apply Hsub. by right. }
  simpl p_pkg. rewrite Hloop by done. simpl.
  rewrite !keys_empty.
  pose proof (Hstructs []) as ->%Permutation_nil_r. simpl. rewrite keys_empty.
  by pose proof (Hrest []) as ->%Permutation_nil_r.
Qed.

Lemma exportedNames_elem scope kind k :
  k ∈ exportedNames scope kind ↔
  IsExported k = true ∧ ∃ o, types.Lookup scope k = Some o ∧ kindOf o = kind.
Proof.
  unfold exportedNames. rewrite list_elem_of_filter. split.
  - intros [[Hexp Hk] Hin]. split; [done|].
    destruct (types.Lookup scope k) as [o|]; simpl in Hk; [|done].
    exists o. split; [done|congruence].
  - intros [Hexp (o & Hl & Hk)]. split; [|by eapply Lookup_in_Names].
    split; [done|]. rewrite Hl. simpl. by rewrite Hk.
Qed.

Lemma omap_Forall2_filter {A B} (g : A → option B) (P : A → Prop)
    `{∀ x, Decision (P x)} (l : list A) :
  (∀ x, x ∈ l → is_Some (g x) ↔ P x) →
  Forall2 (λ y x, g x = Some y) (omap g l) (filter P l).
Proof.
  induction l as [|x l IH]; intros Hall; [constructor|].
  assert (Forall2 (λ y x, g x = Some y) (omap g l) (filter P l)) as IH'
    by (apply IH; intros; apply Hall; by right).
  simpl. destruct (g x) as [y|] eqn:Hg.
  - rewrite filter_cons_True by (apply Hall; [by left|rewrite Hg; by eexists]).
    by constructor.
  - rewrite filter_cons_False; [done|]. intros HP. apply Hall in HP; [|by left].
    rewrite Hg in HP. by destruct HP.
Qed.

Lemma constModel_is_Some p0 k :
  is_Some (constModel p0 k) ↔
  IsExported k = true ∧ kindOf <$> types.Lookup (scopeOf p0) k = Some KConst.
Proof.
  unfold constModel. destruct (types.Lookup (scopeOf p0) k) as [[c|v|fo|t|??]|];
    try (simpl; split; [by intros [? ?]|by intros [_ ?]]).
  rewrite newConst_Ok. simpl.
  destruct (IsExported k); split; try done; try (by intros [? ?]).
Qed.

Lemma varModel_is_Some p0 k :
  is_Some (varModel p0 k) ↔
  IsExported k = true ∧ kindOf <$> types.Lookup (scopeOf p0) k = Some KVar.
Proof.
  unfold varModel. destruct (types.Lookup (scopeOf p0) k) as [[c|v|fo|t|??]|]; simpl;
    try (split; [by intros [? ?]|by intros [_ ?]]).
  destruct (IsExported k); split; try done; try (by intros [? ?]).
Qed.

(** X8: the constants and the variables of the completed package are those
    of the exported constants and variables of the scope, one for each, in
    the order of [scope.Names()]. *)
Theorem constants_and_variables_in_order (ord : MapOrder) (pkg : types.Package)
    (d : doc.Package) (p : Package) :
  admissible ord →
  NewPackage ord pkg d = Ok p →
  Const_GoName <$> p_consts p = exportedNames (types.pkg_Scope pkg) KConst ∧
  Forall2 (λ c k, ∃ tc, types.Lookup (types.pkg_Scope pkg) k = Some (OConst tc) ∧
                        newConst p tc = Ok c)
          (p_consts p) (exportedNames (types.pkg_Scope pkg) KConst) ∧
  Forall2 (λ v k, ∃ tv, types.Lookup (types.pkg_Scope pkg) k = Some (OVar tv) ∧
                        v = newVarFrom pkg d tv)
          (p_vars p) (exportedNames (types.pkg_Scope pkg) KVar).
Proof.
  intros Hadm Hp. pose proof (process_analysed _ _ _ _ Hadm Hp) as Ha.
  pose proof (analysed_env _ _ Ha) as Henv.
  assert (Forall2 (λ c k, constModel (emptyPackage pkg d) k = Some c) (p_consts p)
            (exportedNames (types.pkg_Scope pkg) KConst)) as Hc.
  { rewrite (a_consts _ _ Ha). apply omap_Forall2_filter.
    intros k _. apply constModel_is_Some. }
  split; [|split].
  - apply list_eq_Forall2. apply Forall2_fmap_l.
    eapply Forall2_impl; [exact Hc|]. simpl. intros c k Hk.
    by apply constModel_Some in Hk as (? & _ & _ & ? & _).
  - eapply Forall2_impl; [exact Hc|]. simpl. intros c k Hk. unfold constModel in Hk.
    destruct (types.Lookup _ k) as [[tc|?|?|?|??]|]; try done.
    destruct (IsExported k); [|done]. exists tc. split; [done|].
    rewrite (newConst_env _ _ _ Henv). destruct (newConst _ tc); congruence.
  - rewrite (a_vars _ _ Ha).
    eapply Forall2_impl; [apply omap_Forall2_filter; intros k _; apply varModel_is_Some|].
    simpl. intros v k Hk. apply varModel_Some in Hk as (tv & Hl & _ & _ & ->). by exists tv.
Qed.


Lemma funcModel_intro p k fo :
  types.Lookup (scopeOf p) k = Some (OFunc fo) → IsExported k = true →
  acceptedResults (types.func_Sig fo) = true ∧ is_Some (types.func_Pkg fo) →
  ∃ f, funcModel p k = Some f ∧ newFuncFrom p "" (OFunc fo) (types.func_Sig fo) = Ok f.
Proof.
  intros Hl Hexp Hacc. unfold funcModel. rewrite Hl, Hexp.
  apply (newFuncFrom_func_Ok_iff p "" fo) in Hacc as [f ->]. by eexists.
Qed.

(** Once [NewPackage] has completed, every exported declaration of the
    scope has a model. *)
Lemma completed_models ord pkg d p :
  admissible ord →
  NewPackage ord pkg d = Ok p →
  (∀ k, k ∈ exportedNames (types.pkg_Scope pkg) KType →
        is_Some (structModel (emptyPackage pkg d) k)) ∧
  (∀ k, k ∈ exportedNames (types.pkg_Scope pkg) KFunc →
        is_Some (funcModel (emptyPackage pkg d) k)).
Proof.
  intros Hadm Hp. pose proof (NewPackage_outcome ord pkg d Hadm) as Hout.
  rewrite Hp in Hout. destruct Hout as [Hv _].
  pose proof (proj1 (verdicts_Ok_iff (emptyPackage pkg d)) Hv) as Hall.
  change (scopeOf (emptyPackage pkg d)) with (types.pkg_Scope pkg) in Hall.
  split; intros k (Hexp & o & Hl & Hkind)%exportedNames_elem;
    pose proof (Lookup_Name _ _ _ Hl) as Hn;
    (destruct (Hall k o Hl) as [Hs Hf]; [unfold Exported; by rewrite Hn|]);
    destruct o as [c|v|fo|t|??]; try done.
  - simpl in Hs. destruct (types.tn_Kind t) eqn:Hk; try done.
    destruct (structModel_intro (emptyPackage pkg d) k t Hl Hexp Hk) as (s0 & -> & _).
    by eexists.
  - destruct (funcModel_intro (emptyPackage pkg d) k fo Hl Hexp (Hf fo eq_refl))
      as (f & -> & _).
    by eexists.
Qed.


(** The free functions and the constructors of the completed package are
    the exported functions of the scope, each once. *)
Lemma completed_function_names ord pkg d p :
  admissible ord →
  NewPackage ord pkg d = Ok p →
  NoDup ((Func_GoName <$> p_funcs p) ++ ctorNames (p_structs p)) ∧
  (∀ n, n ∈ (Func_GoName <$> p_funcs p) ++ ctorNames (p_structs p) ↔
        n ∈ exportedNames (types.pkg_Scope pkg) KFunc).
Proof.
  intros Hadm Hp. pose proof (process_analysed _ _ _ _ Hadm Hp) as Ha.
  assert (∀ n, n ∈ Func_GoName <$> p_funcs p →
               ∃ f, funcModel (emptyPackage pkg d) n = Some f ∧
                    n ∉ ctorNames (p_structs p)) as Hfree.
  { intros n (f & -> & Hf)%list_elem_of_fmap.
    apply (a_funcs _ _ Ha) in Hf as (n & Hn & Hnot).
    pose proof (funcModel_Some _ _ _ Hn) as (_ & _ & _ & _ & _ & Hname & _).
    rewrite Hname. by eauto. }
  split.
  - apply NoDup_app. split; [apply (a_func_names _ _ Ha)|].
    split; [|apply (a_ctor_names _ _ Ha)].
    intros n Hn. by destruct (Hfree n Hn) as (_ & _ & ?).
  - intros n. rewrite elem_of_app. split.
    + intros Hn.
      assert (is_Some (funcModel (emptyPackage pkg d) n)) as [f Hf].
      { destruct Hn as [Hn|Hn]; [destruct (Hfree n Hn) as (f & -> & _); by eexists|].
        by apply (a_ctors _ _ Ha). }
      apply funcModel_Some in Hf as (fo & Hl & Hexp & _).
      apply exportedNames_elem. split; [done|]. by exists (OFunc fo).
    + intros Hn. apply (completed_models ord pkg d p Hadm Hp) in Hn as [f Hf].
      destruct (decide (n ∈ ctorNames (p_structs p))) as [Hc|Hc]; [by right|]. left.
      apply list_elem_of_fmap. exists f. split.
      * by apply funcModel_Some in Hf as (_ & _ & _ & _ & _ & -> & _).
      * apply (a_funcs _ _ Ha). by exists n.
Qed.

(** X10: every exported struct type of the scope is listed exactly once
    among the structs of the completed package, and nothing else is; a
    listed struct carries its declaration, the identity made of the package
    name and its name, the doc of its entry among the types, and a set of
    protocols that is empty or the stringer protocol alone. *)
Theorem structs_listed (ord : MapOrder) (pkg : types.Package) (d : doc.Package)
    (p : Package) :
  admissible ord →
  NewPackage ord pkg d = Ok p →
  NoDup (Struct_GoName <$> p_structs p) ∧
  (∀ k, k ∈ Struct_GoName <$> p_structs p ↔ k ∈ exportedNames (types.pkg_Scope pkg) KType) ∧
  (∀ s, s ∈ p_structs p →
        types.Lookup (types.pkg_Scope pkg) (Struct_GoName s) = Some (OTypeName (s_obj s)) ∧
        types.tn_Kind (s_obj s) = types.NamedStruct ∧
        Struct_ID s = types.tn_Pkg (s_obj s) +:+ "_" +:+ Struct_GoName s ∧
        Struct_Doc s = typeDoc (Struct_GoName s) (doc.Types d) ∧
        (s_prots s = 0%Z ∨ s_prots s = ProtoStringer)).
Proof.
  intros Hadm Hp. pose proof (process_analysed _ _ _ _ Hadm Hp) as Ha.
  split; [apply (a_struct_names _ _ Ha)|]. split.
  - intros k. rewrite (a_struct_all _ _ Ha). split.
    + intros [s0 Hs0]. apply structModel_Some in Hs0 as (t & Hl & Hexp & _).
      apply exportedNames_elem. split; [done|]. by exists (OTypeName t).
    + by apply (completed_models ord pkg d p).
  - intros s Hs. apply (analysed_struct _ _ _ Ha) in Hs.
    apply finished_fields in Hs
      as (s0 & ms & Hs0 & _ & Hobj & Hid & Hdoc & _ & Hprots & _ & _ & _).
    apply structModel_Some in Hs0 as (t & Hl & Hexp & Hk & Hn & Hobj0 & Hid0 & _ & _ & _ & Hd).
    rewrite Hobj0 in Hobj. unfold Struct_ID, Struct_Doc. rewrite Hobj, Hid, Hdoc, Hid0.
    split; [done|]. split; [done|]. split; [done|]. split.
    + unfold getDoc in Hd. simpl in Hd. rewrite scanTypeDocs_spec in Hd.
      rewrite Hn in Hd. by injection Hd as <-.
    + rewrite Hprots. destruct (hasStringer _); [by right|by left].
Qed.

(** X11: every exported function of the scope ends up exactly once in the
    completed package, as a free function or as a constructor of a struct,
    and nothing else does. *)
Theorem functions_conserved (ord : MapOrder) (pkg : types.Package) (d : doc.Package)
    (p : Package) :
  admissible ord →
  NewPackage ord pkg d = Ok p →
  NoDup ((Func_GoName <$> p_funcs p) ++ ctorNames (p_structs p)) ∧
  (∀ n, n ∈ (Func_GoName <$> p_funcs p) ++ ctorNames (p_structs p) ↔
        n ∈ exportedNames (types.pkg_Scope pkg) KFunc).
Proof. apply completed_function_names. Qed.

(** ** Identities *)






Lemma exportedDeclarations_elem scope k :
  k ∈ exportedDeclarations scope →
  ∃ o, types.Lookup scope k = Some o ∧ Exported o = true.
Proof.
  unfold exportedDeclarations. rewrite !elem_of_app.
  intros [Hk|[Hk|[Hk|Hk]]]; apply exportedNames_elem in Hk as (Hexp & o & Hl & _);
    exists o; (split; [done|]); unfold Exported; by rewrite (Lookup_Name _ _ _ Hl).
Qed.



(** X12: the model of an exported function of the scope is a free function
    of the completed package exactly when it returns the type of no struct
    of the package. *)
Theorem free_function_iff (ord : MapOrder) (pkg : types.Package) (d : doc.Package)
    (p : Package) (n : string) (fo : types.Func) (f : Func) :
  admissible ord →
  NewPackage ord pkg d = Ok p →
  types.Lookup (types.pkg_Scope pkg) n = Some (OFunc fo) →
  IsExported n = true →
  newFuncFrom p "" (OFunc fo) (types.func_Sig fo) = Ok f →
  f ∈ p_funcs p ↔ ∀ s, s ∈ p_structs p → Func_Return f ≠ Some (Struct_GoType s).
Proof.
  intros Hadm Hp Hl Hexp Hf. pose proof (process_analysed _ _ _ _ Hadm Hp) as Ha.
  rewrite (newFuncFrom_env _ _ _ _ _ (analysed_env _ _ Ha)) in Hf.
  assert (funcModel (emptyPackage pkg d) n = Some f) as Hm.
  { unfold funcModel. change (scopeOf (emptyPackage pkg d)) with (types.pkg_Scope pkg).
    by rewrite Hl, Hexp, Hf. }
  split.
  - intros Hin s Hs. by apply (a_ret _ _ Ha).
  - intros Hret. apply (a_funcs _ _ Ha). exists n. split; [done|].
    intros (f' & k & s0 & Hf' & Hs0 & Hr)%(ctorNames_char _ _ _ Ha).
    assert (f' = f) as -> by congruence.
    assert (k ∈ Struct_GoName <$> p_structs p) as (s & -> & Hs)%list_elem_of_fmap
      by (apply (a_struct_all _ _ Ha); by eexists).
    apply (Hret s Hs). rewrite Hr.
    apply (analysed_struct _ _ _ Ha) in Hs.
    apply finished_fields in Hs as (s0' & ms & Hs0' & _ & _ & _ & _ & _ & _ & _ & _ & Hty).
    assert (s0' = s0) as -> by congruence. by rewrite Hty.
Qed.

Lemma methods_elem p sname mset ms m :
  methods p sname mset = Ok ms → m ∈ ms →
  ∃ meth, meth ∈ exportedMethods mset ∧
          newFuncFrom p sname (OFunc (types.sel_Obj meth)) (types.sel_Type meth) = Ok m.
Proof.
  intros Hms%methods_Forall2 [i Hi]%list_elem_of_lookup.
  destruct (Forall2_lookup_l _ _ _ i m Hms Hi) as (meth & Hmeth & Hf).
  exists meth. split; [by eapply list_elem_of_lookup_2|done].
Qed.

(** X13: in the completed package the constructor flag is set on the
    constructors of the structs and on nothing else; a constructor of a
    struct is the model of an exported function of the scope that returns
    the type of the struct, with the identity it had as a function, made of
    the package name and its name alone. *)
Theorem constructor_flag (ord : MapOrder) (pkg : types.Package) (d : doc.Package)
    (p : Package) :
  admissible ord →
  NewPackage ord pkg d = Ok p →
  (∀ f, f ∈ p_funcs p → f_ctor f = false) ∧
  (∀ s m, s ∈ p_structs p → m ∈ s_meths s → f_ctor m = false) ∧
  (∀ s c, s ∈ p_structs p → c ∈ s_ctors s →
          f_ctor c = true ∧ Func_Return c = Some (Struct_GoType s) ∧
          ∃ fo, types.Lookup (types.pkg_Scope pkg) (Func_GoName c) = Some (OFunc fo) ∧
                IsExported (Func_GoName c) = true ∧
                (∃ pk, types.func_Pkg fo = Some pk ∧
                       Func_ID c = pk +:+ "_" +:+ Func_GoName c) ∧
                Func_Signature c = newSignatureFrom p (types.func_Sig fo) ∧
                Func_GoType c = Some (types.func_Type fo)).
Proof.
  intros Hadm Hp. pose proof (process_analysed _ _ _ _ Hadm Hp) as Ha.
  split; [|split].
  - intros f (n & Hn & _)%(a_funcs _ _ Ha).
    by apply funcModel_Some in Hn as (_ & _ & _ & _ & _ & _ & ? & _).
  - intros s m Hs Hm. apply (analysed_struct _ _ _ Ha) in Hs.
    apply finished_fields in Hs as (s0 & ms & _ & Hms & _ & _ & _ & Hmeths & _).
    rewrite Hmeths in Hm. destruct (methods_elem _ _ _ _ _ Hms Hm) as (meth & _ & Hf).
    by apply newFuncFrom_fields in Hf as (_ & _ & ? & _).
  - intros s c Hs Hc. apply (analysed_struct _ _ _ Ha) in Hs.
    apply finished_fields in Hs
      as (s0 & ms & _ & _ & _ & _ & _ & _ & _ & Hctors & _ & Hty).
    rewrite Forall_forall in Hctors.
    destruct (Hctors c Hc) as (n & f0 & o & dd & Hf0 & Hr & _ & _ & ->).
    apply funcModel_Some in Hf0 as (fo & Hl & Hexp & Hf & _ & Hname & _ & pk & Hpk & Hid).
    apply newFuncFrom_fields in Hf as (_ & _ & _ & _ & Hsig & Htyp).
    split; [done|]. split; [by rewrite Hty|]. exists fo.
    unfold Func_GoName, Func_ID, Func_Signature, Func_GoType in *. simpl.
    rewrite Hname. split; [done|]. split; [done|]. split; [by exists pk|]. split; [|done].
    rewrite Hsig. unfold newSignatureFrom.
    by rewrite (a_pkg _ _ Ha), (a_doc _ _ Ha).
Qed.

(** X14: [NewPackage] keeps the type-checked package and the documentation
    it was given, so that the name of the completed package is the name of
    the Go package. *)
Theorem package_kept (ord : MapOrder) (pkg : types.Package) (d : doc.Package)
    (p : Package) :
  admissible ord →
  NewPackage ord pkg d = Ok p →
  p_pkg p = pkg ∧ p_doc p = d ∧ Package_Name p = types.pkg_Name pkg.
Proof.
  intros Hadm Hp. pose proof (process_analysed _ _ _ _ Hadm Hp) as Ha.
  unfold Package_Name. rewrite (a_pkg _ _ Ha). split; [done|]. split; [|done].
  apply (a_doc _ _ Ha).
Qed.

(** ** The registry of [Lookup] *)

(** X15: once a struct or a function is added, [Lookup] by an object of its
    name returns it, whatever was registered under that name before, and
    [Lookup] by any other name is as before; the added model is the last of
    its list and no other list changes. *)
Theorem add_then_Lookup (p : Package) (s : Struct) (f : Func) (o : Object) :
  Package_Lookup (addStruct p s) o =
    (if decide (types.Name o = Struct_GoName s) then Some (BStruct s)
     else Package_Lookup p o) ∧
  Package_Lookup (addFunc p f) o =
    (if decide (types.Name o = Func_GoName f) then Some (BFunc f)
     else Package_Lookup p o) ∧
  (types.Name o = Struct_GoName s → Struct_GoName s = Func_GoName f →
   Package_Lookup (addFunc (addStruct p s) f) o = Some (BFunc f) ∧
   s ∈ p_structs (addFunc (addStruct p s) f)) ∧
  p_structs (addStruct p s) = p_structs p ++ [s] ∧
  p_funcs (addStruct p s) = p_funcs p ∧
  p_funcs (addFunc p f) = p_funcs p ++ [f] ∧
  p_structs (addFunc p f) = p_structs p.
Proof.
  unfold Package_Lookup. simpl. split; [|split; [|split; [|done]]].
  - destruct (decide _) as [->|Hne]; [by rewrite lookup_insert_eq|].
    by rewrite lookup_insert_ne.
  - destruct (decide _) as [->|Hne]; [by rewrite lookup_insert_eq|].
    by rewrite lookup_insert_ne.
  - intros -> ->. rewrite lookup_insert_eq. split; [done|].
    apply elem_of_app. right. by left.
Qed.

(** ** The buckets of [getDoc] *)

(** X16: [getDoc] reads the type-checked package not at all, and of the
    documentation one bucket only: the constants for a constant, the
    variables for a variable, the types for a type name, for a method and
    for a function looked up under an enclosing type, and the free functions
    for a package-level function looked up without enclosing type. *)
Theorem getDoc_reads (p p' : Package) (parent : string) (o : Object) :
  match o with
  | OConst _ => doc.Consts (p_doc p) = doc.Consts (p_doc p')
  | OVar _ => doc.Vars (p_doc p) = doc.Vars (p_doc p')
  | OFunc fo =>
      if types.func_Parent fo && bool_decide (parent = "")
      then doc.Funcs (p_doc p) = doc.Funcs (p_doc p')
      else doc.Types (p_doc p) = doc.Types (p_doc p')
  | OTypeName _ => doc.Types (p_doc p) = doc.Types (p_doc p')
  | OOther _ _ => True
  end →
  getDoc p parent o = getDoc p' parent o.
Proof.
  destruct o as [c|v|fo|t|pkg name]; unfold getDoc; try (by intros ->); [|done].
  intros Hb.
  assert (funcDoc p parent fo = funcDoc p' parent fo) as ->; [|done].
  unfold funcDoc.
  destruct (types.func_Parent fo), (bool_decide (parent = "")); simpl in *; by rewrite Hb.
Qed.

End Further.

(** * The claims on the sample module *)

Section Sample.

#[local] Existing Instance geo.collaborators.

Lemma inOrder_admissible : admissible geo.inOrder.
Proof. by repeat split. Qed.


Lemma geo_completed : NewPackage geo.inOrder geo.pkg geo.docs = Ok geo.model.
Proof. vm_compute. reflexivity. Qed.

Lemma pointModel_in_model : geo.pointModel ∈ p_structs geo.model.
Proof. apply list_elem_of_here. Qed.

(** [Divide(a, b int) (int, error)] has return type [int] and the error
    flag. *)
Lemma newFuncFrom_result_arity_witness :
  newFuncFrom (emptyPackage geo.pkg geo.docs) "" (OFunc geo.Divide)
              (types.func_Sig geo.Divide) = Ok geo.divideModel ∧
  f_ret geo.divideModel = Some geo.tInt ∧ f_err geo.divideModel = true.
Proof.
  assert (newFuncFrom (emptyPackage geo.pkg geo.docs) "" (OFunc geo.Divide)
                      (types.func_Sig geo.Divide) = Ok geo.divideModel) as Hm
      by (vm_compute; reflexivity).
  split; [exact Hm|].
  destruct (newFuncFrom_result_arity _ _ _ _ _ Hm) as (_ & _ & _ & Hdual).
  apply (Hdual _ _ eq_refl eq_refl).
Defined.

(** The constructor of [Point] keeps the identity it had as a function. *)
Example NewPoint_identity : Func_ID <$> s_ctors geo.pointModel = ["geo_NewPoint"].
Proof. reflexivity. Qed.

(** An object that is no constant, variable, function or type name makes
    [getDoc] panic. *)
Example getDoc_other_panics :
  getDoc geo.model "" (OOther (Some "geo") "fmt") = Panic "not yet supported: %v (%T)".
Proof. reflexivity. Qed.

(** [Sum(a, b int) (int, int, error)] is refused, and the error names it. *)
Example Sum_refused :
  newFuncFrom (emptyPackage geo.pkg geo.docs) "" (OFunc geo.Sum) (types.func_Sig geo.Sum)
  = Err (Errorf "bind: too many results to return: %v" (OFunc geo.Sum)).
Proof. reflexivity. Qed.

(** [NewPoint] is the one constructor of [Point], and no function of the
    package. *)
Lemma constructors_reclassified_witness :
  (∀ f, f ∈ p_funcs geo.model → Func_GoName f ≠ "NewPoint") ∧
  length (filter (λ x, x = "NewPoint") (ctorNames (p_structs geo.model))) = 1 ∧
  NoDup (ctorNames (p_structs geo.model)).
Proof.
  destruct (constructors_reclassified geo.inOrder geo.pkg geo.docs geo.model
              "NewPoint" geo.NewPoint geo.newPointModel geo.pointModel)
    as (Hfree & Honce & _ & Hnodup).
  - exact inOrder_admissible.
  - exact geo_completed.
  - reflexivity.
  - reflexivity.
  - vm_compute. reflexivity.
  - exact pointModel_in_model.
  - reflexivity.
  - split; [exact Hfree|split; [exact Honce|exact Hnodup]].
Defined.

(** The methods of [Point]: [String], and not [norm]. *)
Lemma methods_of_aggregate_witness :
  Func_GoName <$> s_meths geo.pointModel = ["String"] ∧
  ∀ m, m ∈ s_meths geo.pointModel → IsExported (Func_GoName m) = true.
Proof.
  split; [reflexivity|].
  apply (methods_of_aggregate geo.inOrder geo.pkg geo.docs geo.model geo.pointModel).
  - exact inOrder_admissible.
  - exact geo_completed.
  - exact pointModel_in_model.
Defined.

(** [Point] has the bit of [ProtoStringer]. *)
Lemma stringer_bit_iff_witness :
  Z.land (s_prots geo.pointModel) ProtoStringer ≠ 0%Z.
Proof.
  apply (stringer_bit_iff geo.inOrder geo.pkg geo.docs geo.model geo.pointModel).
  - exact inOrder_admissible.
  - exact geo_completed.
  - exact pointModel_in_model.
  - exists (geo.selection geo.tPoint geo.String_). repeat split. apply list_elem_of_here.
Defined.

(** The unexported [helper], which returns a [Point], is nowhere. *)
Lemma unexported_ignored_witness :
  syms (p_syms geo.model) !! "helper" = None ∧
  (∀ f, f ∈ p_funcs geo.model → Func_GoName f ≠ "helper") ∧
  (∀ s, s ∈ p_structs geo.model →
        Struct_GoName s ≠ "helper" ∧ ∀ c, c ∈ s_ctors s → Func_GoName c ≠ "helper").
Proof.
  destruct (unexported_ignored geo.inOrder geo.pkg geo.docs geo.model (OFunc geo.helper))
    as (Hsyms & _ & _ & _ & Hfuncs & Hstructs).
  - exact inOrder_admissible.
  - exact geo_completed.
  - unfold geo.pkg, geo.scope. simpl. repeat (apply list_elem_of_here || apply list_elem_of_further).
  - reflexivity.
  - split; [exact Hsyms|split; [exact Hfuncs|exact Hstructs]].
Defined.


(** C10, as stated, fails: in [shadow] the struct [Point] has the method
    [String], and the lookup by the object of that method succeeds: it
    returns the model of the function [String]. *)
Lemma method_found_by_lookup :
  NewPackage geo.inOrder cases.shadow geo.docs = Ok cases.shadowModel ∧
  cases.shadowPoint ∈ p_structs cases.shadowModel ∧
  cases.stringMethod ∈ s_meths cases.shadowPoint ∧
  geo.selection geo.tPoint geo.String_
    ∈ NewMethodSetOfPointer (Struct_GoType cases.shadowPoint) ∧
  newFuncFrom cases.shadowModel (Struct_GoName cases.shadowPoint) (OFunc geo.String_)
              (types.sel_Type (geo.selection geo.tPoint geo.String_))
    = Ok cases.stringMethod ∧
  Package_Lookup cases.shadowModel (OFunc geo.String_) = Some (BFunc cases.stringModel) ∧
  cases.stringModel ≠ cases.stringMethod.
Proof.
  split; [vm_compute; reflexivity|].
  split; [apply list_elem_of_here|].
  split; [apply list_elem_of_here|].
  split; [apply list_elem_of_here|].
  split; [vm_compute; reflexivity|].
  split; [vm_compute; reflexivity|].
  intros Heq. apply (f_equal f_id) in Heq. vm_compute in Heq. discriminate Heq.
Qed.










(** How a run over [mixed] fails depends on the order: the struct [Reader]
    has a method that is refused, the struct [Failure] the method [Error]
    of the universe. *)
Example failure_depends_on_order :
  NewPackage geo.backwards cases.mixed geo.docs
  = Err (Errorf "bind: second result value must be of type error: %s" (OFunc geo.Read)) ∧
  NewPackage geo.inOrder cases.mixed geo.docs = Panic "nil pointer dereference".
Proof. split; vm_compute; reflexivity. Qed.

(** The signature line and the doc of [Divide], and the signature line of
    [Validate], which has no doc. *)
Lemma getDoc_signature_line_witness :
  getDoc (emptyPackage geo.pkg geo.docs) "" (OFunc geo.Divide)
  = Ok ("Divide(int a, int b) int, object" +:+ newline +:+ newline +:+
        "Divide divides a by b.") ∧
  getDoc (emptyPackage geo.pkg geo.docs) "" (OFunc geo.Validate)
  = Ok "Validate(str s) object".
Proof.
  destruct (getDoc_signature_line (emptyPackage geo.pkg geo.docs) "") as [Hf _].
  destruct (Hf geo.Divide) as [Hdivide _]. destruct (Hf geo.Validate) as [Hvalidate _].
  split; [exact Hdivide|exact Hvalidate].
Defined.

(** ** Further properties on the samples *)


Lemma tooMany_refused :
  NewPackage geo.inOrder cases.tooMany geo.docs
  = Err (Errorf "bind: too many results to return: %v" (OFunc geo.Sum)).
Proof. vm_compute. reflexivity. Qed.

(** The error of [tooMany] is the one of [Sum]. *)
Lemma NewPackage_error_source_witness :
  ∃ fo sig,
    acceptedResults sig = false ∧
    Errorf "bind: too many results to return: %v" (OFunc geo.Sum) =
      Errorf (if decide (length (types.sig_Results sig) = 2)
              then "bind: second result value must be of type error: %s"
              else "bind: too many results to return: %v") (OFunc fo) ∧
    IsExported (types.func_Name fo) = true ∧
    ((types.Lookup (types.pkg_Scope cases.tooMany) (types.func_Name fo) = Some (OFunc fo) ∧
      sig = types.func_Sig fo) ∨
     (∃ k t, types.Lookup (types.pkg_Scope cases.tooMany) k = Some (OTypeName t) ∧
             IsExported k = true ∧ types.tn_Kind t = types.NamedStruct ∧
             {| types.sel_Obj := fo; types.sel_Type := sig |}
               ∈ NewMethodSetOfPointer (types.tn_Type t))).
Proof.
  exact (NewPackage_error_source geo.inOrder cases.tooMany geo.docs _
           inOrder_admissible tooMany_refused).
Defined.

Lemma notStruct_panics :
  NewPackage geo.inOrder cases.notStruct geo.docs = Panic "not yet supported: %v (%T)".
Proof. vm_compute. reflexivity. Qed.



(** The panic of [notStruct] is the one of its exported named type that is
    no struct. *)
Example notStruct_panic_source :
  ∃ k o, types.Lookup (types.pkg_Scope cases.notStruct) k = Some o ∧ Exported o = true ∧
         supportedKind o = false ∧ "not yet supported: %v (%T)" = unsupportedPanic o.
Proof. exists "Celsius", (OTypeName cases.Celsius). by repeat split. Qed.

(** In [tooMany] the turn of [Sum] is the first that does not go through. *)
Lemma first_failure_decides_witness :
  forget (NewPackage geo.backwards cases.tooMany geo.docs)
  = verdict (emptyPackage cases.tooMany geo.docs) "Sum" ∧
  verdict (emptyPackage cases.tooMany geo.docs) "Sum"
  = Err (Errorf "bind: too many results to return: %v" (OFunc geo.Sum)).
Proof.
  split; [|reflexivity].
  apply (first_failure_decides geo.backwards cases.tooMany geo.docs ["Origin"; "Pi"] "Sum" []).
  - reflexivity.
  - repeat constructor.
  - discriminate.
Defined.

(** [hidden] exports nothing, and has declarations of kinds an exported
    declaration would panic on. *)
Lemma nothing_exported_witness :
  NewPackage geo.inOrder cases.hidden geo.docs = Ok (emptyPackage cases.hidden geo.docs).
Proof.
  apply (nothing_exported geo.inOrder cases.hidden geo.docs inOrder_admissible).
  intros k Hk. simpl in Hk. rewrite !elem_of_cons, elem_of_nil in Hk.
  destruct Hk as [->|[->|[->|[]]]]; reflexivity.
Defined.

(** The constants and the variables of [geo]. *)
Lemma constants_and_variables_in_order_witness :
  Const_GoName <$> p_consts geo.model = ["Pi"] ∧
  Forall2 (λ v k, ∃ tv, types.Lookup geo.scope k = Some (OVar tv) ∧
                        v = newVarFrom geo.pkg geo.docs tv)
          (p_vars geo.model) ["Origin"].
Proof.
  destruct (constants_and_variables_in_order geo.inOrder geo.pkg geo.docs geo.model
              inOrder_admissible geo_completed) as (Hc & _ & Hv).
  split; [exact Hc|exact Hv].
Defined.



(** The structs of [geo]: [Point]. *)
Lemma structs_listed_witness :
  NoDup (Struct_GoName <$> p_structs geo.model) ∧
  (∀ k, k ∈ Struct_GoName <$> p_structs geo.model ↔ k ∈ exportedNames geo.scope KType) ∧
  Struct_ID geo.pointModel = "geo_Point" ∧
  s_prots geo.pointModel = ProtoStringer.
Proof.
  destruct (structs_listed geo.inOrder geo.pkg geo.docs geo.model
              inOrder_admissible geo_completed) as (Hnd & Hall & Hfields).
  destruct (Hfields geo.pointModel pointModel_in_model) as (_ & _ & Hid & _ & _).
  split; [exact Hnd|split; [exact Hall|split; [exact Hid|reflexivity]]].
Defined.

(** The exported functions of [geo]: [Divide] and [Validate] stay free,
    [NewPoint] is a constructor. *)
Lemma functions_conserved_witness :
  NoDup ((Func_GoName <$> p_funcs geo.model) ++ ctorNames (p_structs geo.model)) ∧
  (∀ n, n ∈ (Func_GoName <$> p_funcs geo.model) ++ ctorNames (p_structs geo.model) ↔
        n ∈ exportedNames geo.scope KFunc) ∧
  exportedNames geo.scope KFunc = ["Divide"; "NewPoint"; "Validate"].
Proof.
  destruct (functions_conserved geo.inOrder geo.pkg geo.docs geo.model
              inOrder_admissible geo_completed) as (Hnd & Hall).
  split; [exact Hnd|split; [exact Hall|reflexivity]].
Defined.

Lemma divideModel_free : geo.divideModel ∈ p_funcs geo.model.
Proof. apply list_elem_of_further, list_elem_of_here. Qed.

(** [Divide] is a free function of [geo]: it returns [int], the type of no
    struct. *)
Lemma free_function_iff_witness :
  geo.divideModel ∈ p_funcs geo.model ∧
  ∀ s, s ∈ p_structs geo.model → Func_Return geo.divideModel ≠ Some (Struct_GoType s).
Proof.
  split; [exact divideModel_free|].
  apply (free_function_iff geo.inOrder geo.pkg geo.docs geo.model "Divide" geo.Divide
           geo.divideModel).
  - exact inOrder_admissible.
  - exact geo_completed.
  - reflexivity.
  - reflexivity.
  - vm_compute. reflexivity.
  - exact divideModel_free.
Defined.

(** The flags of [geo]. *)
Lemma constructor_flag_witness :
  (∀ f, f ∈ p_funcs geo.model → f_ctor f = false) ∧
  (∀ c, c ∈ s_ctors geo.pointModel →
        f_ctor c = true ∧ Func_Return c = Some (Struct_GoType geo.pointModel)).
Proof.
  destruct (constructor_flag geo.inOrder geo.pkg geo.docs geo.model
              inOrder_admissible geo_completed) as (Hfree & _ & Hctor).
  split; [exact Hfree|].
  intros c Hc. destruct (Hctor geo.pointModel c pointModel_in_model Hc) as (Hflag & Hret & _).
  split; [exact Hflag|exact Hret].
Defined.

(** The name of the completed package of [geo]. *)
Lemma package_kept_witness : Package_Name geo.model = "geo".
Proof.
  destruct (package_kept geo.inOrder geo.pkg geo.docs geo.model
              inOrder_admissible geo_completed) as (_ & _ & Hname).
  exact Hname.
Defined.

(** A function added under the name of the struct [Point] takes its place
    in the registry, and the struct stays in its list. *)
Lemma add_then_Lookup_witness :
  Package_Lookup (addFunc (addStruct geo.noPackage geo.pointModel) cases.pointFunc)
                 (OTypeName geo.Point) = Some (BFunc cases.pointFunc) ∧
  geo.pointModel ∈ p_structs (addFunc (addStruct geo.noPackage geo.pointModel) cases.pointFunc).
Proof.
  destruct (add_then_Lookup geo.noPackage geo.pointModel cases.pointFunc (OTypeName geo.Point))
    as (_ & _ & Hboth & _).
  apply Hboth; reflexivity.
Defined.

(** The doc of the method [String] of [Point] does not change when the
    entries of the free functions are taken away. *)
Lemma getDoc_reads_witness :
  getDoc geo.model "Point" (OFunc geo.String_)
  = getDoc (emptyPackage geo.pkg cases.docsWithoutFuncs) "Point" (OFunc geo.String_).
Proof.
  apply (getDoc_reads geo.model (emptyPackage geo.pkg cases.docsWithoutFuncs) "Point"
           (OFunc geo.String_)).
  reflexivity.
Defined.

End Sample.
